(** * frigate_reviewer: a shallow embedding of [frigate_reviewer.py]

    The script listens to Frigate's MQTT event stream, queues every finished
    event, and a worker thread re-validates each queued event with a YOLO
    detector, marking it as a false positive in Frigate when no target object
    is found above the confidence threshold.

    Python values are modelled as they come out of [json.loads]; the calls the
    script makes to other libraries ([json.loads], [requests.get],
    [requests.put], [Image.open], the YOLO model, [datetime.now], [str] on
    non-strings, the [.3f] float format) and to the file system
    ([os.makedirs], [open] and the writes that follow it) are the fields of a
    [World] record, so every function below is executable once a world is
    given.  A call that can raise has a [result] or, for a write, a
    [write_result]: no request, decoding, detection or file operation is
    taken to succeed.  Effects (the queue, the stop flag, the log, the
    network trace, the files written) are threaded through a
    state-and-exception monad. *)

From Stdlib Require Import Floats.PrimFloat Strings.Ascii.
From stdpp Require Import gmap strings list pretty.

Set Warnings "-register-all,-inexact-float".

(** ** Python values *)

(** What [json.loads] can return. *)
Inductive json : Type :=
  | JNull
  | JBool (b : bool)
  | JInt (n : Z)
  | JFloat (x : float)
  | JStr (s : string)
  | JArr (l : list json)
  | JObj (m : gmap string json).

(** Python truthiness, as used by [not event_id] and [not has_snapshot]. *)
Definition truthy (v : json) : bool :=
  match v with
  | JNull => false
  | JBool b => b
  | JInt n => negb (n =? 0)%Z
  | JFloat x => negb (PrimFloat.eqb x 0%float)
  | JStr s => negb (String.eqb s "")
  | JArr l => negb (Nat.eqb (length l) 0)
  | JObj m => negb (Nat.eqb (size m) 0)
  end.

Definition type_name (v : json) : string :=
  match v with
  | JNull => "NoneType"
  | JBool _ => "bool"
  | JInt _ => "int"
  | JFloat _ => "float"
  | JStr _ => "str"
  | JArr _ => "list"
  | JObj _ => "dict"
  end.

(** [v == s] for a string literal [s]. *)
Definition py_eq_str (v : json) (s : string) : bool :=
  match v with
  | JStr s' => String.eqb s' s
  | _ => false
  end.

Definition bytes := string.

(** ** Exceptions *)

Inductive exn_class : Type :=
  | JSONDecodeError
  | UnicodeDecodeError
  | AttributeError
  | ValueError
  | HTTPError
  | ConnectionError
  | Timeout
  | RequestException
  | UnidentifiedImageError
  | OSError
  | FileNotFoundError
  | RuntimeError.

(** An instance of (a subclass of) [Exception]; [exn_str] is [str(e)]. *)
Record exn : Type := Exn { exn_cls : exn_class; exn_str : string }.

(** [isinstance(e, json.JSONDecodeError)] *)
Definition is_JSONDecodeError (e : exn) : bool :=
  match exn_cls e with
  | JSONDecodeError => true
  | _ => false
  end.

(** [isinstance(e, requests.exceptions.RequestException)] *)
Definition is_RequestException (e : exn) : bool :=
  match exn_cls e with
  | HTTPError | ConnectionError | Timeout | RequestException => true
  | _ => false
  end.

Inductive result (A : Type) : Type :=
  | Return (a : A)
  | Raise (e : exn).
Arguments Return {A} a.
Arguments Raise {A} e.

(** ** The environment *)

Record Response : Type := { status_code : Z; reason : string; content : bytes }.

(** A decoded RGB image. *)
Record image : Type := { size_wh : Z * Z; pixels : list Z }.

(** One element of [results[0].boxes], with the three values the loop reads:
    [yolo_model.names[int(obj.cls[0])]], [float(obj.conf[0])] and
    [obj.xywh[0]]. *)
Record Box : Type := { box_class : string; box_conf : float; box_xywh : list float }.

Record MQTTMessage : Type := { topic : string; payload : bytes }.

(** What a file holds. *)
Inductive file : Type :=
  | JsonFile (v : json)   (* written by json.dump *)
  | RawFile (b : bytes).  (* written by f.write in "wb" mode *)

(** What [with open(path, mode) as f: <write the data>] comes to: the file
    holds the data; or [open] raised and nothing changed; or [open] created or
    truncated the file and the write raised, leaving [partial] behind. *)
Inductive write_result : Type :=
  | Written
  | NotOpened (e : exn)
  | Interrupted (e : exn) (partial : file).

Record World : Type := {
  json_loads : bytes → result json;
  requests_get : string → result Response;
  requests_put : string → result Response;
  response_url : string → string;         (* requests.get(url).url *)
  Image_open : bytes → result image;      (* Image.open(io.BytesIO(_)).convert('RGB') *)
  yolo_model : image → result (list Box); (* yolo_model(image), then results[0].boxes *)
  datetime_now : string;                  (* datetime.now().isoformat() *)
  py_str : json → string;                 (* str(v) for a value that is not a str *)
  fmt_3f : float → string;                (* f"{x:.3f}" *)
  os_makedirs : string → result unit;     (* os.makedirs(path, exist_ok=True) *)
  open_write : string → file → write_result
}.

(** [f"{v}"] *)
Definition fmt (w : World) (v : json) : string :=
  match v with
  | JStr s => s
  | _ => py_str w v
  end.

(** ** Configuration *)

Definition FRIGATE_API_URL : string := "http://192.168.0.211:5000".
Definition CONFIDENCE_THRESHOLD : float := 0.5%float.
Definition TARGET_CLASSES : gset string := {["person"; "car"; "truck"; "dog"; "cat"]}.

(** ** Program state *)

(** The dict [event_details] built by [on_message]. *)
Record Event : Type := {
  ev_id : json;
  ev_camera : json;
  ev_labels : json;
  ev_has_snapshot : json
}.

(** [queue.Queue()]: the deque and the counter behind [task_done]. *)
Record Queue : Type := { items : list Event; unfinished_tasks : nat }.

Inductive level : Type := INFO | ERROR.

Inductive call : Type :=
  | HttpGet (url : string)
  | HttpPut (url : string)
  | Detect (img : image).

Record State : Type := {
  event_queue : Queue;
  stop_event : bool;
  log : list (level * string);
  calls : list call;
  files : gmap string file
}.

(** The state once the module is loaded: its top has made the directories
    [reviewed_images/true], [reviewed_images/false] and
    [reviewed_images/debug], and no event has been seen. *)
Definition initial_state : State :=
  {| event_queue := {| items := []; unfinished_tasks := 0 |};
     stop_event := false; log := []; calls := []; files := ∅ |}.

(** ** The state-and-exception monad *)

Definition M (A : Type) : Type := State → State * result A.

Definition ret {A} (a : A) : M A := fun st => (st, Return a).
Definition raise {A} (e : exn) : M A := fun st => (st, Raise e).
Definition bind {A B} (c : M A) (k : A → M B) : M B :=
  fun st =>
    match c st with
    | (st', Return a) => k a st'
    | (st', Raise e) => (st', Raise e)
    end.

Notation "x <- c ;; k" := (bind c (fun x => k))
  (at level 100, c at next level, k at level 200, right associativity).
Notation "c ;; k" := (bind c (fun _ => k))
  (at level 100, k at level 200, right associativity).

(** [try: c except Exception as e: h e] *)
Definition try_except {A} (c : M A) (h : exn → M A) : M A :=
  fun st =>
    match c st with
    | (st', Return a) => (st', Return a)
    | (st', Raise e) => h e st'
    end.

Definition lift {A} (r : result A) : M A := fun st => (st, r).

Definition logging (lv : level) (msg : string) : M unit :=
  fun st =>
    ({| event_queue := event_queue st; stop_event := stop_event st;
        log := log st ++ [(lv, msg)]; calls := calls st; files := files st |},
     Return tt).

Definition record_call (c : call) : M unit :=
  fun st =>
    ({| event_queue := event_queue st; stop_event := stop_event st;
        log := log st; calls := calls st ++ [c]; files := files st |},
     Return tt).

Definition add_file (path : string) (data : file) (st : State) : State :=
  {| event_queue := event_queue st; stop_event := stop_event st;
     log := log st; calls := calls st; files := <[path := data]> (files st) |}.

(** [with open(path, mode) as f: ...] writing [data]. *)
Definition write_file (w : World) (path : string) (data : file) : M unit :=
  fun st =>
    match open_write w path data with
    | Written => (add_file path data st, Return tt)
    | NotOpened e => (st, Raise e)
    | Interrupted e partial => (add_file path partial st, Raise e)
    end.

Definition set_queue (q : Queue) (st : State) : State :=
  {| event_queue := q; stop_event := stop_event st;
     log := log st; calls := calls st; files := files st |}.

(** [event_queue.put(ev)] *)
Definition queue_put (ev : Event) : M unit :=
  fun st =>
    let q := event_queue st in
    (set_queue {| items := items q ++ [ev];
                  unfinished_tasks := S (unfinished_tasks q) |} st,
     Return tt).

(** [event_queue.task_done()] *)
Definition queue_task_done : M unit :=
  fun st =>
    let q := event_queue st in
    match unfinished_tasks q with
    | O => (st, Raise (Exn ValueError "task_done() called too many times"))
    | S n => (set_queue {| items := items q; unfinished_tasks := n |} st, Return tt)
    end.

(** ** The listener *)

(** [v.get(key, default)] *)
Definition py_get (v : json) (key : string) (default : json) : M json :=
  match v with
  | JObj m => ret (from_option id default (m !! key))
  | _ => raise (Exn AttributeError
                  ("'" +:+ type_name v +:+ "' object has no attribute 'get'"))
  end.

Definition on_message (w : World) (msg : MQTTMessage) : M unit :=
  match json_loads w (payload msg) with
  | Raise e =>
      if is_JSONDecodeError e
      then logging ERROR "Received a message that is not valid JSON."
      else raise e
  | Return payload =>
      event_type <- py_get payload "type" JNull ;;
      if py_eq_str event_type "end" then
        event <- py_get payload "after" (JObj ∅) ;;
        event_id <- py_get event "id" JNull ;;
        camera <- py_get event "camera" JNull ;;
        labels <- py_get event "labels" (JArr []) ;;
        has_snapshot <- py_get event "has_snapshot" (JBool false) ;;
        if negb (truthy event_id) then
          logging ERROR "Received an event without an ID. Skipping."
        else
          let event_details :=
            {| ev_id := event_id; ev_camera := camera;
               ev_labels := labels; ev_has_snapshot := has_snapshot |} in
          queue_put event_details ;;
          logging INFO ("Enqueued event " +:+ fmt w event_id +:+
                        " from camera " +:+ fmt w camera)
      else ret tt
  end.

(** ** Marking a false positive *)

Definition false_positive_url (w : World) (event_id : json) : string :=
  FRIGATE_API_URL +:+ "/api/events/" +:+ fmt w event_id +:+ "/false_positive".

Definition mark_event_as_false_positive (w : World) (event_id : json) : M unit :=
  let url := false_positive_url w event_id in
  record_call (HttpPut url) ;;
  match requests_put w url with
  | Return response =>
      if (status_code response =? 200)%Z then
        logging INFO ("Event " +:+ fmt w event_id +:+ " marked as false positive")
      else
        logging ERROR ("Failed to mark event " +:+ fmt w event_id +:+
                       " as false positive. Status code: " +:+
                       pretty (status_code response))
  | Raise e =>
      if is_RequestException e then
        logging ERROR ("Error marking event " +:+ fmt w event_id +:+
                       " as false positive: " +:+ exn_str e)
      else raise e
  end.

(** ** Validation *)

Definition snapshot_url (w : World) (event_id : json) : string :=
  FRIGATE_API_URL +:+ "/api/events/" +:+ fmt w event_id +:+ "/snapshot.jpg".

(** [response.raise_for_status()], for a response whose [url] attribute is
    [url]. *)
Definition raise_for_status (url : string) (response : Response) : result unit :=
  let status := status_code response in
  if ((400 <=? status) && (status <? 500))%Z then
    Raise (Exn HTTPError (pretty status +:+ " Client Error: " +:+ reason response +:+
                          " for url: " +:+ url))
  else if ((500 <=? status) && (status <? 600))%Z then
    Raise (Exn HTTPError (pretty status +:+ " Server Error: " +:+ reason response +:+
                          " for url: " +:+ url))
  else Return tt.

(** The body of the [try] block of [process_event]. *)
Definition fetch_snapshot (w : World) (url : string) : M (bytes * image) :=
  record_call (HttpGet url) ;;
  response <- lift (requests_get w url) ;;
  lift (raise_for_status (response_url w url) response) ;;
  let image_data := content response in
  image <- lift (Image_open w image_data) ;;
  ret (image_data, image).

Definition py_bool_str (b : bool) : string := if b then "True" else "False".

Definition in_target_classes (class_name : string) : bool :=
  bool_decide (class_name ∈ TARGET_CLASSES).

(** [confidence > CONFIDENCE_THRESHOLD] *)
Definition passes_threshold (confidence : float) : bool :=
  PrimFloat.ltb CONFIDENCE_THRESHOLD confidence.

Definition detection_info (obj : Box) : json :=
  JObj (list_to_map
          [("class", JStr (box_class obj));
           ("confidence", JFloat (box_conf obj));
           ("bbox", JArr (JFloat <$> box_xywh obj))]).

(** The [for obj in objects] loop; the result is [(valid_detection, detections)]
    as they stand when the loop is left, by exhaustion or by [break]. *)
Fixpoint scan (w : World) (event_id : json) (objects : list Box)
    (detections : list json) : M (bool * list json) :=
  match objects with
  | [] => ret (false, detections)
  | obj :: rest =>
      let class_name := box_class obj in
      let confidence := box_conf obj in
      logging INFO ("Detection in event " +:+ fmt w event_id +:+ ":") ;;
      logging INFO ("  Class: " +:+ class_name) ;;
      logging INFO ("  Confidence: " +:+ fmt_3f w confidence) ;;
      logging INFO ("  Threshold: 0.5") ;;
      logging INFO ("  In target classes: " +:+
                    py_bool_str (in_target_classes class_name)) ;;
      logging INFO ("  Passes threshold: " +:+
                    py_bool_str (passes_threshold confidence)) ;;
      let detections := detections ++ [detection_info obj] in
      if in_target_classes class_name then
        if passes_threshold confidence then
          logging INFO ("VALID DETECTION: " +:+ class_name +:+ " with confidence " +:+
                        fmt_3f w confidence) ;;
          ret (true, detections)
        else
          logging INFO ("Detection below threshold: " +:+ fmt_3f w confidence +:+
                        " <= 0.5") ;;
          scan w event_id rest detections
      else scan w event_id rest detections
  end.

(** [process_event] returns [None] at three places; the model's return value
    tells which: the [return] after the snapshot test, the [return] in the
    [except] block, or the end of the function (with [valid_detection]). *)
Inductive outcome : Type :=
  | Skipped
  | Failed
  | Decided (valid_detection : bool).

Definition final_decision_str (valid_detection : bool) : string :=
  if valid_detection then "valid" else "false_positive".

Definition make_debug_info (w : World) (event_id camera : json)
    (detections : list json) (valid_detection : bool) : json :=
  JObj (list_to_map
          [("event_id", event_id);
           ("timestamp", JStr (datetime_now w));
           ("camera", camera);
           ("detections", JArr detections);
           ("confidence_threshold", JFloat CONFIDENCE_THRESHOLD);
           ("final_decision", JStr (final_decision_str valid_detection))]).

Definition debug_path (w : World) (event_id : json) : string :=
  "reviewed_images/debug/" +:+ fmt w event_id.

Definition process_event (w : World) (event_details : Event) : M outcome :=
  let event_id := ev_id event_details in
  let camera := ev_camera event_details in
  let has_snapshot := ev_has_snapshot event_details in
  if negb (truthy has_snapshot) then
    logging INFO ("Event " +:+ fmt w event_id +:+ " has no snapshot available") ;;
    ret Skipped
  else
    logging INFO ("Processing event " +:+ fmt w event_id +:+ " from camera " +:+
                  fmt w camera) ;;
    fetched <- try_except
                 (r <- fetch_snapshot w (snapshot_url w event_id) ;; ret (Some r))
                 (fun e =>
                    logging ERROR ("Error retrieving/processing image for event " +:+
                                   fmt w event_id +:+ ": " +:+ exn_str e) ;;
                    ret None) ;;
    match fetched with
    | None => ret Failed
    | Some (image_data, image) =>
        record_call (Detect image) ;;
        objects <- lift (yolo_model w image) ;;
        scanned <- scan w event_id objects [] ;;
        let valid_detection := scanned.1 in
        let detections := scanned.2 in
        let debug_info := make_debug_info w event_id camera detections valid_detection in
        lift (os_makedirs w (debug_path w event_id)) ;;
        write_file w (debug_path w event_id +:+ "/detection_details.json")
                   (JsonFile debug_info) ;;
        write_file w (debug_path w event_id +:+ "/snapshot.jpg") (RawFile image_data) ;;
        output_path <-
          (if valid_detection then
             logging INFO ("Event " +:+ fmt w event_id +:+
                           ": Valid detection confirmed by YOLO") ;;
             ret ("reviewed_images/true/" +:+ fmt w event_id +:+ ".jpg")
           else
             logging INFO ("Event " +:+ fmt w event_id +:+
                           ": No valid detection found by YOLO") ;;
             mark_event_as_false_positive w event_id ;;
             ret ("reviewed_images/false/" +:+ fmt w event_id +:+ ".jpg")) ;;
        write_file w output_path (RawFile image_data) ;;
        ret (Decided valid_detection)
    end.

(** ** The worker thread and the threads around it *)

(** What the worker does with a dequeued event: the rest of the [try] body
    and the [except Exception] handler.  [event_details] is a dict with four
    keys, so the handler's [if event_details:] test passes. *)
Definition serve (w : World) (event_details : Event) : M unit :=
  try_except
    (process_event w event_details ;; queue_task_done)
    (fun e =>
       logging ERROR ("Error processing event: " +:+ exn_str e) ;;
       queue_task_done).

(** Where the worker thread stands: before the [while] test, between a passed
    test and the call of [event_queue.get], holding a dequeued event, after
    the loop, or killed by an exception that left [worker]. *)
Inductive worker_pc : Type :=
  | AtLoopTest
  | AtGet
  | Processing (event_details : Event)
  | Exited
  | Crashed (e : exn).

Record System : Type := { sys_state : State; sys_pc : worker_pc }.

Definition initial_system : System :=
  {| sys_state := initial_state; sys_pc := AtLoopTest |}.

(** One move of the worker thread.  [event_queue.get(timeout=1)] on an empty
    queue raises [queue.Empty], which the loop answers with [continue]. *)
Definition worker (w : World) (sys : System) : System :=
  let st := sys_state sys in
  match sys_pc sys with
  | AtLoopTest =>
      if stop_event st then {| sys_state := st; sys_pc := Exited |}
      else {| sys_state := st; sys_pc := AtGet |}
  | AtGet =>
      match items (event_queue st) with
      | [] => {| sys_state := st; sys_pc := AtLoopTest |}
      | event_details :: rest =>
          {| sys_state :=
               set_queue {| items := rest;
                            unfinished_tasks := unfinished_tasks (event_queue st) |} st;
             sys_pc := Processing event_details |}
      end
  | Processing event_details =>
      match serve w event_details st with
      | (st', Return _) => {| sys_state := st'; sys_pc := AtLoopTest |}
      | (st', Raise e) => {| sys_state := st'; sys_pc := Crashed e |}
      end
  | Exited => sys
  | Crashed _ => sys
  end.

(** [stop_event.set()], called by [main] on [KeyboardInterrupt]. *)
Definition stop_event_set (st : State) : State :=
  {| event_queue := event_queue st; stop_event := true;
     log := log st; calls := calls st; files := files st |}.

(** The threads interleave: the MQTT client thread delivers a message to
    [on_message], the main thread sets the stop flag, or the worker thread
    makes one move.  Each move sees the world as it is at that moment. *)
Inductive action : Type :=
  | Deliver (w : World) (msg : MQTTMessage)
  | SetStop
  | WorkerMove (w : World).

Definition step (a : action) (sys : System) : System :=
  match a with
  | Deliver w msg =>
      {| sys_state := (on_message w msg (sys_state sys)).1; sys_pc := sys_pc sys |}
  | SetStop =>
      {| sys_state := stop_event_set (sys_state sys); sys_pc := sys_pc sys |}
  | WorkerMove w => worker w sys
  end.

Definition run (schedule : list action) (sys : System) : System :=
  fold_left (fun s a => step a s) schedule sys.

(** The number of [event_queue.get] calls the worker starts in [schedule]
    while the stop flag is set. *)
Fixpoint gets_started_after_stop (schedule : list action) (sys : System) : nat :=
  match schedule with
  | [] => 0
  | a :: rest =>
      (match a, sys_pc sys with
       | WorkerMove _, AtGet => if stop_event (sys_state sys) then 1 else 0
       | _, _ => 0
       end) + gets_started_after_stop rest (step a sys)
  end.

(** ** Vocabulary of the statements *)

(** A detection qualifies when its class is a target class and its confidence
    is strictly above the threshold. *)
Definition qualifying (obj : Box) : bool :=
  in_target_classes (box_class obj) && passes_threshold (box_conf obj).

(** The objects the loop looks at: all of them up to and including the first
    qualifying one. *)
Fixpoint considered (objects : list Box) : list Box :=
  match objects with
  | [] => []
  | obj :: rest => if qualifying obj then [obj] else obj :: considered rest
  end.

Definition add_log (entries : list (level * string)) (st : State) : State :=
  {| event_queue := event_queue st; stop_event := stop_event st;
     log := log st ++ entries; calls := calls st; files := files st |}.

Definition is_put (c : call) : bool :=
  match c with
  | HttpPut _ => true
  | _ => false
  end.

(** The false-positive calls issued so far. *)
Definition false_positive_calls (st : State) : list call := filter is_put (calls st).

Definition details_path (w : World) (event_id : json) : string :=
  debug_path w event_id +:+ "/detection_details.json".

(** The decision written into the event's [detection_details.json]. *)
Definition rendered_decision (w : World) (event_id : json) (st : State) : option string :=
  match files st !! details_path w event_id with
  | Some (JsonFile (JObj debug_info)) =>
      match debug_info !! "final_decision" with
      | Some (JStr decision) => Some decision
      | _ => None
      end
  | _ => None
  end.

(** The field names of the record written into the event's
    [detection_details.json], in the order of the map's listing. *)
Definition record_fields (w : World) (event_id : json) (st : State) : list string :=
  match files st !! details_path w event_id with
  | Some (JsonFile (JObj debug_info)) => (map_to_list debug_info).*1
  | _ => []
  end.

(** The paths of the files written so far, in the order of the map's listing. *)
Definition written_paths (st : State) : list string := (map_to_list (files st)).*1.

Definition is_error (entry : level * string) : bool :=
  match entry.1 with
  | ERROR => true
  | INFO => false
  end.

(** The messages logged at level ERROR so far. *)
Definition error_messages (st : State) : list string := snd <$> filter is_error (log st).

(** [needle in haystack] for strings. *)
Fixpoint contains (haystack needle : string) : bool :=
  String.prefix needle haystack ||
  match haystack with
  | EmptyString => false
  | String _ rest => contains rest needle
  end.

Definition add_call (c : call) (st : State) : State :=
  {| event_queue := event_queue st; stop_event := stop_event st; log := log st;
     calls := calls st ++ [c]; files := files st |}.

(** What the [try] block of [process_event] comes to: the snapshot bytes and
    the decoded image, or the exception of the first step that fails. *)
Definition fetch_result (w : World) (url : string) : result (bytes * image) :=
  match requests_get w url with
  | Return response =>
      match raise_for_status (response_url w url) response with
      | Return _ =>
          match Image_open w (content response) with
          | Return img => Return (content response, img)
          | Raise e => Raise e
          end
      | Raise e => Raise e
      end
  | Raise e => Raise e
  end.

Definition snapshot_path (w : World) (event_id : json) : string :=
  debug_path w event_id +:+ "/snapshot.jpg".

(** Where the copy of the snapshot goes, by decision. *)
Definition output_path (w : World) (event_id : json) (valid_detection : bool) : string :=
  if valid_detection then "reviewed_images/true/" +:+ fmt w event_id +:+ ".jpg"
  else "reviewed_images/false/" +:+ fmt w event_id +:+ ".jpg".

(** The record [process_event] builds for the detections [objects]. *)
Definition debug_record (w : World) (ev : Event) (objects : list Box) : json :=
  make_debug_info w (ev_id ev) (ev_camera ev) (detection_info <$> considered objects)
    (existsb qualifying objects).

(** The exception a write ends with, if it ends with one. *)
Definition write_error (r : write_result) : result unit :=
  match r with
  | Written => Return tt
  | NotOpened e | Interrupted e _ => Raise e
  end.

(** What saving the debug information comes to: [os.makedirs] and the two
    writes under the event's debug directory all succeed, or the exception
    of the first of them that fails. *)
Definition debug_result (w : World) (ev : Event) (image_data : bytes)
    (objects : list Box) : result unit :=
  match os_makedirs w (debug_path w (ev_id ev)) with
  | Return _ =>
      match write_error (open_write w (details_path w (ev_id ev))
                           (JsonFile (debug_record w ev objects))) with
      | Return _ =>
          write_error (open_write w (snapshot_path w (ev_id ev)) (RawFile image_data))
      | Raise e => Raise e
      end
  | Raise e => Raise e
  end.

(** The exception of [requests.put] that [mark_event_as_false_positive] lets
    through, if there is one. *)
Definition put_escapes (w : World) (event_id : json) : option exn :=
  match requests_put w (false_positive_url w event_id) with
  | Raise e => if is_RequestException e then None else Some e
  | Return _ => None
  end.

(** How [process_event] ends once the debug information is saved: what the
    final write left at the output path, if it was reached and left
    anything, and the result. *)
Definition copy_result (w : World) (ev : Event) (image_data : bytes) (valid : bool)
    : option file * result outcome :=
  match (if valid then None else put_escapes w (ev_id ev)) with
  | Some e => (None, Raise e)
  | None =>
      match open_write w (output_path w (ev_id ev) valid) (RawFile image_data) with
      | Written => (Some (RawFile image_data), Return (Decided valid))
      | NotOpened e => (None, Raise e)
      | Interrupted e partial => (Some partial, Raise e)
      end
  end.

(** The state [process_event] leaves behind once the debug information is
    saved; [copy] is what the final write left at the output path. *)
Definition decided_state (w : World) (ev : Event) (response : Response) (img : image)
    (objects : list Box) (entries : list (level * string)) (copy : option file)
    (st : State) : State :=
  let valid := existsb qualifying objects in
  {| event_queue := event_queue st; stop_event := stop_event st;
     log := log st ++ entries;
     calls := calls st ++ [HttpGet (snapshot_url w (ev_id ev)); Detect img] ++
              (if valid then [] else [HttpPut (false_positive_url w (ev_id ev))]);
     files :=
       (match copy with
        | Some data => <[output_path w (ev_id ev) valid := data]>
        | None => id
        end)
         (<[snapshot_path w (ev_id ev) := RawFile (content response)]>
            (<[details_path w (ev_id ev) := JsonFile (debug_record w ev objects)]>
               (files st))) |}.

(** The part of [process_event] after the loop, for an image whose bytes are
    [image_data] and whose detections are [objects]. *)
Definition save_and_mark (w : World) (ev : Event) (image_data : bytes)
    (objects : list Box) : M outcome :=
  let event_id := ev_id ev in
  let valid_detection := existsb qualifying objects in
  lift (os_makedirs w (debug_path w event_id)) ;;
  write_file w (details_path w event_id) (JsonFile (debug_record w ev objects)) ;;
  write_file w (snapshot_path w event_id) (RawFile image_data) ;;
  output_path <-
    (if valid_detection then
       logging INFO ("Event " +:+ fmt w event_id +:+
                     ": Valid detection confirmed by YOLO") ;;
       ret ("reviewed_images/true/" +:+ fmt w event_id +:+ ".jpg")
     else
       logging INFO ("Event " +:+ fmt w event_id +:+
                     ": No valid detection found by YOLO") ;;
       mark_event_as_false_positive w event_id ;;
       ret ("reviewed_images/false/" +:+ fmt w event_id +:+ ".jpg")) ;;
  write_file w output_path (RawFile image_data) ;;
  ret (Decided valid_detection).

(** A computation that leaves the queue and the stop flag alone. *)
Definition keeps_queue {A} (c : M A) : Prop :=
  ∀ st, event_queue (c st).1 = event_queue st ∧ stop_event (c st).1 = stop_event st.

(** A computation that leaves the queued events and the stop flag alone (it
    may move the counter behind [task_done]). *)
Definition keeps_items {A} (c : M A) : Prop :=
  ∀ st, items (event_queue (c st).1) = items (event_queue st) ∧
        stop_event (c st).1 = stop_event st.

(** A finished-event message: the payload parses to a dict whose ["type"] is
    ["end"] and whose ["after"] record is a dict; the result is that record. *)
Definition finished_event (w : World) (msg : MQTTMessage) : option (gmap string json) :=
  match json_loads w (payload msg) with
  | Return (JObj p) =>
      match p !! "type", p !! "after" with
      | Some event_type, Some (JObj event) =>
          if py_eq_str event_type "end" then Some event else None
      | _, _ => None
      end
  | _ => None
  end.

(** The non-empty identifier a record carries, if it carries one. *)
Definition identifier (event : gmap string json) : option json :=
  match event !! "id" with
  | Some event_id => if truthy event_id then Some event_id else None
  | None => None
  end.

(** The [Event] a valid finished-event message stands for. *)
Definition event_of_message (w : World) (msg : MQTTMessage) : option Event :=
  event ← finished_event w msg;
  event_id ← identifier event;
  Some {| ev_id := event_id;
          ev_camera := default JNull (event !! "camera");
          ev_labels := default (JArr []) (event !! "labels");
          ev_has_snapshot := default (JBool false) (event !! "has_snapshot") |}.

(** The queue after [event_queue.put(ev)]. *)
Definition enqueue (ev : Event) (q : Queue) : Queue :=
  {| items := items q ++ [ev]; unfinished_tasks := S (unfinished_tasks q) |}.

Definition queue_of (sys : System) : Queue := event_queue (sys_state sys).

(** The counter behind [task_done] counts the queued events and the one the
    worker holds; a worker on its feet has not crashed. *)
Definition consistent (sys : System) : Prop :=
  match sys_pc sys with
  | Processing _ => unfinished_tasks (queue_of sys) = S (length (items (queue_of sys)))
  | Crashed _ => False
  | _ => unfinished_tasks (queue_of sys) = length (items (queue_of sys))
  end.

(** The world [w] with another detector. *)
Definition with_detector (w : World) (detect : image → result (list Box)) : World :=
  {| json_loads := json_loads w; requests_get := requests_get w;
     requests_put := requests_put w; response_url := response_url w;
     Image_open := Image_open w;
     yolo_model := detect; datetime_now := datetime_now w;
     py_str := py_str w; fmt_3f := fmt_3f w;
     os_makedirs := os_makedirs w; open_write := open_write w |}.

(** The detections recorded in the event's [detection_details.json]. *)
Definition recorded_detections (w : World) (event_id : json) (st : State) : option json :=
  match files st !! details_path w event_id with
  | Some (JsonFile (JObj debug_info)) => debug_info !! "detections"
  | _ => None
  end.

(** ** Example worlds and events *)

Definition loads_table (b : bytes) : result json :=
  if String.eqb b "[]" then Return (JArr [])
  else if String.eqb b "{}" then Return (JObj ∅)
  else if String.eqb b "null" then Return JNull
  else Raise (Exn JSONDecodeError "Expecting value: line 1 column 1 (char 0)").

(** The components of a path. *)
Fixpoint path_components (path : string) : list string :=
  match path with
  | EmptyString => [EmptyString]
  | String c rest =>
      if Ascii.eqb c "/"%char then EmptyString :: path_components rest
      else match path_components rest with
           | name :: names => String c name :: names
           | [] => [String c EmptyString]
           end
  end.

(** The file system of the examples is the working directory as the script's
    start leaves it, on a file system with the usual limits: a path with a
    NUL character or with a component of more than 255 characters is
    refused, and a file can be created in a directory that exists, which
    [reviewed_images/true], [reviewed_images/false] and what [os.makedirs]
    made under [reviewed_images/debug] do. *)
Definition example_refusal (path : string) : option exn :=
  if contains path (String "000"%char EmptyString) then
    Some (Exn ValueError "embedded null byte")
  else if existsb (fun name => 255 <? String.length name) (path_components path) then
    Some (Exn OSError ("[Errno 36] File name too long: '" +:+ path +:+ "'"))
  else None.

Definition example_makedirs (path : string) : result unit :=
  match example_refusal path with
  | Some e => Raise e
  | None => Return tt
  end.

Definition example_open_write (path : string) (data : file) : write_result :=
  match example_refusal path with
  | Some e => NotOpened e
  | None =>
      match path_components path with
      | ["reviewed_images"; "true"; _] | ["reviewed_images"; "false"; _]
      | "reviewed_images" :: "debug" :: _ :: _ :: _ => Written
      | _ => NotOpened (Exn FileNotFoundError
                          ("[Errno 2] No such file or directory: '" +:+ path +:+ "'"))
      end
  end.

Definition example_world (loads : bytes → result json) (get : result Response)
    (detect : result (list Box)) (put : result Response) : World :=
  {| json_loads := loads;
     requests_get := fun _ => get;
     requests_put := fun _ => put;
     response_url := fun url => url;
     os_makedirs := example_makedirs;
     open_write := example_open_write;
     Image_open := fun b =>
       if String.eqb b "" then Raise (Exn UnidentifiedImageError "cannot identify image file")
       else Return {| size_wh := (640, 480)%Z; pixels := [] |};
     yolo_model := fun _ => detect;
     datetime_now := "2024-01-01T12:00:00";
     py_str := fun v =>
       match v with
       | JNull => "None"
       | JBool b => py_bool_str b
       | JInt n => pretty n
       | _ => "<object>"
       end;
     fmt_3f := fun x =>
       if PrimFloat.eqb x 0.82%float then "0.820"
       else if PrimFloat.eqb x 0.3%float then "0.300"
       else if PrimFloat.eqb x 0.9%float then "0.900"
       else "0.000" |}.

Definition ok_response (body : bytes) : result Response :=
  Return {| status_code := 200; reason := "OK"; content := body |}.

Definition not_found : result Response :=
  Return {| status_code := 404; reason := "Not Found"; content := "" |}.

Definition example_event (event_id : string) (has_snapshot : bool) : Event :=
  {| ev_id := JStr event_id; ev_camera := JStr "front_door";
     ev_labels := JArr [JStr "person"]; ev_has_snapshot := JBool has_snapshot |}.

(** An identifier longer than a file name may be. *)
Definition long_name : string := String.concat EmptyString (replicate 300 "a").

Definition example_box (class_name : string) (confidence : float) : Box :=
  {| box_class := class_name; box_conf := confidence;
     box_xywh := [320; 240; 100; 200]%float |}.

(** The [after] record of a finished event that names only its id. *)
Definition bare_record (event_id : string) : gmap string json :=
  {["id" := JStr event_id]}.

(** The [after] record of a finished event that names all four fields. *)
Definition example_record (event_id : string) (has_snapshot : bool) : gmap string json :=
  list_to_map [("id", JStr event_id); ("camera", JStr "front_door");
               ("labels", JArr [JStr "person"]); ("has_snapshot", JBool has_snapshot)].

(** A message whose payload parses to a finished event with record [event]. *)
Definition finished_payload (event : gmap string json) : json :=
  JObj (<["type" := JStr "end"]> (<["after" := JObj event]> ∅)).

Definition example_message : MQTTMessage :=
  {| topic := "frigate/events"; payload := "<finished event>" |}.

(** Scenario A: one person at 0.82. *)
Definition world_A : World :=
  example_world loads_table (ok_response "JPEG") (Return [example_box "person" 0.82%float])
    (ok_response "").

(** Scenario B: one person at 0.30. *)
Definition world_B : World :=
  example_world loads_table (ok_response "JPEG") (Return [example_box "person" 0.3%float])
    (ok_response "").

(** Scenario D: finished event evt-4 arrives and its snapshot request is
    answered with 404. *)
Definition world_D : World :=
  example_world (fun _ => Return (finished_payload (example_record "evt-4" true)))
    not_found (Return []) (ok_response "").

(** A world that receives finished event evt-4 and whose detector fails. *)
Definition world_detector_down : World :=
  example_world (fun _ => Return (finished_payload (example_record "evt-4" true)))
    (ok_response "JPEG") (Raise (Exn RuntimeError "CUDA out of memory")) (ok_response "").

(** A world that receives a finished event naming only its id. *)
Definition world_bare (event_id : string) : World :=
  example_world (fun _ => Return (finished_payload (bare_record event_id)))
    (ok_response "JPEG") (Return []) (ok_response "").

(** ** The connection callback and the main thread *)

Definition MQTT_BROKER : string := "192.168.0.200".
Definition MQTT_PORT : Z := 1883.
Definition MQTT_TOPIC : string := "frigate/events/#".

(** The MQTT client as this script drives it: the [subscribe] calls it was
    given, and whether [disconnect] was called. *)
Record Client : Type := { subscriptions : list string; disconnected : bool }.

Definition new_client : Client := {| subscriptions := []; disconnected := false |}.

(** [client.subscribe(topic)] *)
Definition client_subscribe (topic : string) (client : Client) : Client :=
  {| subscriptions := subscriptions client ++ [topic];
     disconnected := disconnected client |}.

(** [client.disconnect()] *)
Definition client_disconnect (client : Client) : Client :=
  {| subscriptions := subscriptions client; disconnected := true |}.

(** [on_connect(client, userdata, flags, rc)]; the result is the client after
    the callback. *)
Definition on_connect (client : Client) (rc : Z) : M Client :=
  if (rc =? 0)%Z then
    logging INFO "Connected to MQTT Broker!" ;;
    logging INFO "Listening for Frigate events..." ;;
    ret (client_subscribe MQTT_TOPIC client)
  else
    logging ERROR ("Failed to connect to MQTT Broker. Return code: " +:+ pretty rc) ;;
    ret client.

(** The process [main] builds: the shared state with the worker thread, and
    the MQTT client. *)
Record Process : Type := { proc_sys : System; proc_client : Client }.

Definition initial_process : Process :=
  {| proc_sys := initial_system; proc_client := new_client |}.

(** What the two threads started by [main] do: the client thread gets the
    broker's answer [rc] to a connection attempt and calls [on_connect], or
    hands a message to [on_message]; the worker thread makes a move. *)
Inductive thread_action : Type :=
  | ClientConnects (rc : Z)
  | ClientDelivers (w : World) (msg : MQTTMessage)
  | WorkerMoves (w : World).

Definition thread_step (a : thread_action) (p : Process) : Process :=
  match a with
  | ClientConnects rc =>
      let r := on_connect (proc_client p) rc (sys_state (proc_sys p)) in
      {| proc_sys := {| sys_state := r.1; sys_pc := sys_pc (proc_sys p) |};
         proc_client := match r.2 with
                        | Return client => client
                        | Raise _ => proc_client p
                        end |}
  | ClientDelivers w msg =>
      {| proc_sys := step (Deliver w msg) (proc_sys p); proc_client := proc_client p |}
  | WorkerMoves w =>
      {| proc_sys := step (WorkerMove w) (proc_sys p); proc_client := proc_client p |}
  end.

Definition threads (schedule : list thread_action) (p : Process) : Process :=
  fold_left (fun p a => thread_step a p) schedule p.

(** [worker_thread.join()] while the threads do [schedule]: it returns, with
    [true], as soon as the worker thread has ended; [false] means the schedule
    ran out with [main] still waiting. *)
Fixpoint join (schedule : list thread_action) (p : Process) : Process * bool :=
  match sys_pc (proc_sys p) with
  | Exited => (p, true)
  | Crashed _ => (p, true)
  | _ =>
      match schedule with
      | [] => (p, false)
      | a :: rest => join rest (thread_step a p)
      end
  end.

(** A step of the main thread on the shared state. *)
Definition main_step (f : State → State) (p : Process) : Process :=
  {| proc_sys := {| sys_state := f (sys_state (proc_sys p)); sys_pc := sys_pc (proc_sys p) |};
     proc_client := proc_client p |}.

(** How far [main] got: it returned because the broker could not be reached,
    it is still waiting in [join], or it shut down. *)
Inductive main_outcome : Type :=
  | ConnectFailed (st : State)
  | Joining (p : Process)
  | ShutDown (p : Process).

(** [main()]: [connect] is what [client.connect] does, [running] what the two
    threads do until [KeyboardInterrupt] reaches the main thread, [joining]
    what they do while [main] waits for the worker. *)
Definition main (connect : result unit) (running joining : list thread_action) : main_outcome :=
  match connect with
  | Raise e =>
      ConnectFailed
        (logging ERROR ("Failed to connect to MQTT broker: " +:+ exn_str e) initial_state).1
  | Return _ =>
      let p := threads running initial_process in
      let p := main_step (fun st => (logging INFO "Shutting down..." st).1) p in
      let p := main_step stop_event_set p in
      match join joining p with
      | (p, true) =>
          let p := {| proc_sys := proc_sys p;
                      proc_client := client_disconnect (proc_client p) |} in
          ShutDown (main_step (fun st => (logging INFO "Shutdown complete" st).1) p)
      | (p, false) => Joining p
      end
  end.

(** ** More vocabulary *)

(** The events the worker dequeues in [schedule], in the order it gets them. *)
Fixpoint taken (schedule : list action) (sys : System) : list Event :=
  match schedule with
  | [] => []
  | a :: rest =>
      match a, sys_pc sys, items (queue_of sys) with
      | WorkerMove _, AtGet, ev :: _ => [ev]
      | _, _, _ => []
      end ++ taken rest (step a sys)
  end.

(** The events the messages delivered in [schedule] stand for, in order. *)
Fixpoint accepted (schedule : list action) : list Event :=
  match schedule with
  | [] => []
  | Deliver w msg :: rest =>
      match event_of_message w msg with
      | Some ev => ev :: accepted rest
      | None => accepted rest
      end
  | _ :: rest => accepted rest
  end.

Definition is_set_stop (a : action) : bool :=
  match a with
  | SetStop => true
  | _ => false
  end.

Definition is_worker_move (a : thread_action) : bool :=
  match a with
  | WorkerMoves _ => true
  | _ => false
  end.

(** The number of moves the worker thread makes in [schedule]. *)
Definition worker_moves (schedule : list thread_action) : nat :=
  length (List.filter is_worker_move schedule).

Definition is_successful_connect (a : thread_action) : bool :=
  match a with
  | ClientConnects rc => (rc =? 0)%Z
  | _ => false
  end.

(** The number of connection attempts in [schedule] the broker accepts. *)
Definition successful_connects (schedule : list thread_action) : nat :=
  length (List.filter is_successful_connect schedule).

(** The trail recorded for [objects] ends at the first qualifying detection:
    nothing before its last entry qualifies. *)
Definition stops_at_first_match (trail : list Box) : Prop :=
  ∀ i obj, trail !! i = Some obj → S i < length trail → qualifying obj = false.

(** [nan], as a confidence. *)
Definition not_a_number : float := PrimFloat.nan.

(** How many moves the worker needs at most to leave its loop once the stop
    flag is up. *)
Definition moves_to_exit (pc : worker_pc) : nat :=
  match pc with
  | AtGet => 3
  | Processing _ => 2
  | AtLoopTest => 1
  | Exited => 0
  | Crashed _ => 0
  end.

Definition is_worker_action (a : action) : bool :=
  match a with
  | WorkerMove _ => true
  | _ => false
  end.

(** * Properties *)

(** ** Running the monad *)

Lemma logging_run lv msg st : logging lv msg st = (add_log [(lv, msg)] st, Return tt).
Proof. reflexivity. Qed.

Lemma bind_logging {A} lv msg (k : M A) st :
  (logging lv msg ;; k) st = k (add_log [(lv, msg)] st).
Proof. reflexivity. Qed.

Lemma add_log_add_log l1 l2 st : add_log l2 (add_log l1 st) = add_log (l1 ++ l2) st.
Proof. unfold add_log; simpl. by rewrite <- (assoc_L (++)). Qed.

Lemma add_log_nil st : add_log [] st = st.
Proof. destruct st; unfold add_log; simpl. by rewrite (right_id_L [] (++)). Qed.

Lemma scan_run w event_id objects :
  ∀ detections st, ∃ entries,
    scan w event_id objects detections st =
      (add_log entries st,
       Return (existsb qualifying objects,
               detections ++ (detection_info <$> considered objects))).
Proof.
  induction objects as [|obj rest IH]; intros detections st.
  - exists []. simpl. rewrite add_log_nil, (right_id_L [] (++)). reflexivity.
  - simpl. rewrite !bind_logging, !add_log_add_log.
    unfold qualifying at 1 3.
    destruct (in_target_classes (box_class obj)); simpl.
    + destruct (passes_threshold (box_conf obj)); simpl.
      * rewrite bind_logging, add_log_add_log. eauto.
      * rewrite bind_logging, add_log_add_log.
        match goal with
        | |- context [scan w event_id rest ?d ?s] => destruct (IH d s) as [entries ->]
        end.
        rewrite add_log_add_log. eexists. by rewrite <- (assoc_L (++) detections).
    + match goal with
      | |- context [scan w event_id rest ?d ?s] => destruct (IH d s) as [entries ->]
      end.
      rewrite add_log_add_log. eexists. by rewrite <- (assoc_L (++) detections).
Qed.

Lemma bind_ret {A B} (a : A) (k : A → M B) st : (x <- ret a ;; k x) st = k a st.
Proof. reflexivity. Qed.

Lemma bind_bind {A B C} (c : M A) (f : A → M B) (k : B → M C) st :
  (y <- (x <- c ;; f x) ;; k y) st = (x <- c ;; y <- f x ;; k y) st.
Proof. unfold bind. by destruct (c st) as [st' [a|e]]. Qed.

Lemma bind_record_call {A} c (k : M A) st : (record_call c ;; k) st = k (add_call c st).
Proof. reflexivity. Qed.

Lemma bind_write_file {A} w path data (k : M A) st :
  open_write w path data = Written →
  (write_file w path data ;; k) st = k (add_file path data st).
Proof. intros H. unfold bind, write_file. by rewrite H. Qed.

Lemma write_file_fails {A} w path data (k : M A) st e :
  write_error (open_write w path data) = Raise e →
  ∃ st', (write_file w path data ;; k) st = (st', Raise e) ∧
         event_queue st' = event_queue st ∧ stop_event st' = stop_event st ∧
         log st' = log st ∧ calls st' = calls st ∧
         ∀ path', path' ≠ path → files st' !! path' = files st !! path'.
Proof.
  unfold bind, write_file.
  destruct (open_write w path data) as [|e'|e' partial]; cbn [write_error]; [done| |].
  - intros [= ->]. by exists st.
  - intros [= ->]. exists (add_file path partial st). split_and!; try done.
    intros path' Hne. cbn [add_file files]. by rewrite lookup_insert_ne.
Qed.

Lemma bind_lift_Return {A B} (a : A) (k : A → M B) st : (x <- lift (Return a) ;; k x) st = k a st.
Proof. reflexivity. Qed.

Lemma bind_lift_Raise {A B} e (k : A → M B) st :
  (x <- lift (Raise e) ;; k x) st = (st, Raise e).
Proof. reflexivity. Qed.

Lemma fetch_snapshot_run w url st :
  fetch_snapshot w url st = (add_call (HttpGet url) st, fetch_result w url).
Proof.
  unfold fetch_snapshot, fetch_result. rewrite bind_record_call.
  destruct (requests_get w url) as [response|e]; [|done].
  rewrite bind_lift_Return.
  destruct (raise_for_status (response_url w url) response) as [[]|e]; [|done].
  rewrite bind_lift_Return.
  by destruct (Image_open w (content response)).
Qed.

Lemma mark_event_as_false_positive_run w event_id st :
  ∃ entry,
    mark_event_as_false_positive w event_id st =
      (add_log entry (add_call (HttpPut (false_positive_url w event_id)) st),
       match requests_put w (false_positive_url w event_id) with
       | Raise e => if is_RequestException e then Return tt else Raise e
       | Return _ => Return tt
       end).
Proof.
  unfold mark_event_as_false_positive. rewrite bind_record_call.
  destruct (requests_put w (false_positive_url w event_id)) as [resp|e].
  - destruct (status_code resp =? 200)%Z; rewrite logging_run; eauto.
  - destruct (is_RequestException e); [rewrite logging_run; eauto|].
    exists []. by rewrite add_log_nil.
Qed.

Lemma State_eq st1 st2 :
  event_queue st1 = event_queue st2 → stop_event st1 = stop_event st2 →
  log st1 = log st2 → calls st1 = calls st2 → files st1 = files st2 → st1 = st2.
Proof. destruct st1, st2; simpl; congruence. Qed.

Ltac state_eq :=
  apply State_eq;
  cbn [event_queue stop_event log calls files add_log add_call add_file];
  [reflexivity | reflexivity
  | by rewrite <- ?(assoc_L (++))
  | by rewrite <- ?(assoc_L (++)), ?(right_id_L [] (++))
  | reflexivity].

(** Whether [raise_for_status] raises depends on the status code alone. *)
Lemma raise_for_status_url url url' response :
  raise_for_status url response = Return tt → raise_for_status url' response = Return tt.
Proof.
  unfold raise_for_status.
  destruct ((400 <=? status_code response) && (status_code response <? 500))%Z; [done|].
  by destruct ((500 <=? status_code response) && (status_code response <? 600))%Z.
Qed.

Lemma fetch_result_fetched w url response img :
  requests_get w url = Return response →
  raise_for_status url response = Return tt →
  Image_open w (content response) = Return img →
  fetch_result w url = Return (content response, img).
Proof.
  intros Hget Hstatus Himg. unfold fetch_result.
  by rewrite Hget, (raise_for_status_url _ (response_url w url) _ Hstatus), Himg.
Qed.

(** Up to the end of the loop. *)
Lemma process_event_scanned w ev st response img objects :
  let url := snapshot_url w (ev_id ev) in
  truthy (ev_has_snapshot ev) = true →
  requests_get w url = Return response →
  raise_for_status url response = Return tt →
  Image_open w (content response) = Return img →
  yolo_model w img = Return objects →
  ∃ entries,
    process_event w ev st =
      save_and_mark w ev (content response) objects
        (add_log entries (add_call (Detect img) (add_call (HttpGet url) st))).
Proof.
  intros url Hsnap Hget Hstatus Himg Hyolo.
  pose proof (fetch_result_fetched w url response img Hget Hstatus Himg) as Hfetch.
  unfold process_event. rewrite Hsnap. cbn [negb].
  rewrite bind_logging.
  unfold bind at 1, try_except, bind at 1.
  rewrite fetch_snapshot_run. fold url. rewrite Hfetch. cbn [ret].
  rewrite bind_record_call.
  rewrite Hyolo, bind_lift_Return.
  unfold bind at 1.
  match goal with
  | |- context [scan w ?i objects ?d ?s] => destruct (scan_run w i objects d s) as [entries ->]
  end.
  cbn [fst snd app].
  exists ((INFO, "Processing event " +:+ fmt w (ev_id ev) +:+ " from camera " +:+
                 fmt w (ev_camera ev)) :: entries).
  unfold save_and_mark, details_path, snapshot_path, debug_record.
  match goal with
  | |- ?c ?s1 = ?c' ?s2 => replace s2 with s1; [reflexivity|]
  end.
  state_eq.
Qed.

Lemma debug_result_saved w ev image_data objects :
  debug_result w ev image_data objects = Return tt →
  os_makedirs w (debug_path w (ev_id ev)) = Return tt ∧
  open_write w (details_path w (ev_id ev)) (JsonFile (debug_record w ev objects)) = Written ∧
  open_write w (snapshot_path w (ev_id ev)) (RawFile image_data) = Written.
Proof.
  unfold debug_result.
  destruct (os_makedirs w (debug_path w (ev_id ev))) as [[]|e]; [|done].
  destruct (open_write w (details_path w (ev_id ev)) (JsonFile (debug_record w ev objects)));
    cbn [write_error]; [|done..].
  by destruct (open_write w (snapshot_path w (ev_id ev)) (RawFile image_data)).
Qed.

Lemma save_and_mark_saved w ev image_data objects st :
  let valid := existsb qualifying objects in
  debug_result w ev image_data objects = Return tt →
  ∃ entries,
    save_and_mark w ev image_data objects st =
      ({| event_queue := event_queue st; stop_event := stop_event st;
          log := log st ++ entries;
          calls := calls st ++
                   (if valid then [] else [HttpPut (false_positive_url w (ev_id ev))]);
          files :=
            (match (copy_result w ev image_data valid).1 with
             | Some data => <[output_path w (ev_id ev) valid := data]>
             | None => id
             end)
              (<[snapshot_path w (ev_id ev) := RawFile image_data]>
                 (<[details_path w (ev_id ev) := JsonFile (debug_record w ev objects)]>
                    (files st))) |},
       (copy_result w ev image_data valid).2).
Proof.
  intros valid (Hmk & Hdetails & Hsnapshot)%debug_result_saved.
  unfold save_and_mark. rewrite Hmk, bind_lift_Return.
  rewrite (bind_write_file _ _ _ _ _ Hdetails), (bind_write_file _ _ _ _ _ Hsnapshot).
  fold valid. unfold copy_result, put_escapes. generalize (debug_record w ev objects) as info.
  intros info. clearbody valid. destruct valid; cbn [output_path].
  - rewrite bind_bind, bind_logging, bind_ret.
    unfold bind, write_file.
    destruct (open_write w ("reviewed_images/true/" +:+ fmt w (ev_id ev) +:+ ".jpg")
                (RawFile image_data)); unfold ret; cbn [fst snd];
      eexists; f_equal; state_eq.
  - rewrite bind_bind, bind_logging, bind_bind.
    unfold bind at 1.
    match goal with
    | |- context [mark_event_as_false_positive w (ev_id ev) ?s] =>
        destruct (mark_event_as_false_positive_run w (ev_id ev) s) as [entry ->]
    end.
    destruct (requests_put w (false_positive_url w (ev_id ev))) as [resp|e].
    + rewrite bind_ret. unfold bind, write_file.
      destruct (open_write w ("reviewed_images/false/" +:+ fmt w (ev_id ev) +:+ ".jpg")
                  (RawFile image_data)); unfold ret; cbn [fst snd];
        eexists; f_equal; state_eq.
    + destruct (is_RequestException e).
      * rewrite bind_ret. unfold bind, write_file.
        destruct (open_write w ("reviewed_images/false/" +:+ fmt w (ev_id ev) +:+ ".jpg")
                    (RawFile image_data)); unfold ret; cbn [fst snd];
          eexists; f_equal; state_eq.
      * cbn [fst snd]. eexists; f_equal; state_eq.
Qed.

Lemma save_and_mark_fails w ev image_data objects st e :
  debug_result w ev image_data objects = Raise e →
  ∃ st',
    save_and_mark w ev image_data objects st = (st', Raise e) ∧
    event_queue st' = event_queue st ∧ stop_event st' = stop_event st ∧
    log st' = log st ∧ calls st' = calls st ∧
    (∀ path, path ≠ details_path w (ev_id ev) → path ≠ snapshot_path w (ev_id ev) →
             files st' !! path = files st !! path) ∧
    (∀ e', os_makedirs w (debug_path w (ev_id ev)) = Raise e' → files st' = files st).
Proof.
  unfold debug_result, save_and_mark.
  destruct (os_makedirs w (debug_path w (ev_id ev))) as [[]|e0].
  2:{ intros [= ->]. rewrite bind_lift_Raise. by exists st. }
  rewrite bind_lift_Return.
  destruct (write_error (open_write w (details_path w (ev_id ev))
                           (JsonFile (debug_record w ev objects)))) as [[]|e1] eqn:Hdetails.
  2:{ intros [= ->].
      match goal with
      | |- context [bind (write_file w ?p ?d) ?k st] =>
          destruct (write_file_fails w p d (k tt) st e Hdetails)
            as (st' & Hrun & Hq & Hs & Hl & Hc & Hf)
      end.
      exists st'. split; [exact Hrun|]. split_and!; try done.
      intros path Hd _. by apply Hf. }
  assert (Hwritten : open_write w (details_path w (ev_id ev))
                       (JsonFile (debug_record w ev objects)) = Written).
  { by destruct (open_write w (details_path w (ev_id ev))
                   (JsonFile (debug_record w ev objects))). }
  rewrite (bind_write_file _ _ _ _ _ Hwritten).
  intros Hsnapshot.
  match goal with
  | |- context [bind (write_file w ?p ?d) ?k ?s] =>
      destruct (write_file_fails w p d (k tt) s e Hsnapshot)
        as (st' & Hrun & Hq & Hs & Hl & Hc & Hf)
  end.
  exists st'. split; [exact Hrun|]. split_and!; try done.
  intros path Hd Hsn. rewrite Hf by done. cbn [add_file files].
  by rewrite lookup_insert_ne.
Qed.

(** Once the debug information is saved, [process_event] issues the call the
    decision asks for and ends with the final write. *)
Lemma process_event_decides w ev st response img objects :
  let url := snapshot_url w (ev_id ev) in
  let valid := existsb qualifying objects in
  truthy (ev_has_snapshot ev) = true →
  requests_get w url = Return response →
  raise_for_status url response = Return tt →
  Image_open w (content response) = Return img →
  yolo_model w img = Return objects →
  debug_result w ev (content response) objects = Return tt →
  ∃ entries,
    process_event w ev st =
      (decided_state w ev response img objects entries
         (copy_result w ev (content response) valid).1 st,
       (copy_result w ev (content response) valid).2).
Proof.
  intros url valid Hsnap Hget Hstatus Himg Hyolo Hsaved. subst url.
  destruct (process_event_scanned w ev st response img objects
              Hsnap Hget Hstatus Himg Hyolo) as [entries ->].
  destruct (save_and_mark_saved w ev (content response) objects
              (add_log entries (add_call (Detect img)
                 (add_call (HttpGet (snapshot_url w (ev_id ev))) st))) Hsaved)
    as [entries' ->].
  exists (entries ++ entries'). f_equal. unfold decided_state. fold valid.
  state_eq.
Qed.

(** When the debug information cannot be saved, the exception leaves
    [process_event] before the decision is acted upon. *)
Lemma process_event_unsaved w ev st response img objects e :
  let url := snapshot_url w (ev_id ev) in
  truthy (ev_has_snapshot ev) = true →
  requests_get w url = Return response →
  raise_for_status url response = Return tt →
  Image_open w (content response) = Return img →
  yolo_model w img = Return objects →
  debug_result w ev (content response) objects = Raise e →
  let r := process_event w ev st in
  r.2 = Raise e ∧
  calls r.1 = calls st ++ [HttpGet url; Detect img] ∧
  (∀ path, path ≠ details_path w (ev_id ev) → path ≠ snapshot_path w (ev_id ev) →
           files r.1 !! path = files st !! path) ∧
  (∀ e', os_makedirs w (debug_path w (ev_id ev)) = Raise e' → files r.1 = files st).
Proof.
  intros url Hsnap Hget Hstatus Himg Hyolo Hfails r. subst r url.
  destruct (process_event_scanned w ev st response img objects
              Hsnap Hget Hstatus Himg Hyolo) as [entries ->].
  destruct (save_and_mark_fails w ev (content response) objects
              (add_log entries (add_call (Detect img)
                 (add_call (HttpGet (snapshot_url w (ev_id ev))) st))) e Hfails)
    as (st' & -> & _ & _ & _ & Hcalls & Hframe & Hmk).
  cbn [fst snd]. split_and!; [done| |exact Hframe|exact Hmk].
  rewrite Hcalls. cbn [add_log add_call calls]. by rewrite <- (assoc_L (++)).
Qed.

(** ** What never touches the queue *)

Lemma keeps_ret {A} (a : A) : keeps_queue (ret a).
Proof. by intros st. Qed.

Lemma keeps_raise {A} e : keeps_queue (@raise A e).
Proof. by intros st. Qed.

Lemma keeps_lift {A} (r : result A) : keeps_queue (lift r).
Proof. by intros st. Qed.

Lemma keeps_logging lv msg : keeps_queue (logging lv msg).
Proof. by intros st. Qed.

Lemma keeps_record_call c : keeps_queue (record_call c).
Proof. by intros st. Qed.

Lemma keeps_write_file w path data : keeps_queue (write_file w path data).
Proof. intros st. unfold write_file. by destruct (open_write w path data). Qed.

Lemma keeps_bind {A B} (c : M A) (k : A → M B) :
  keeps_queue c → (∀ a, keeps_queue (k a)) → keeps_queue (x <- c ;; k x).
Proof.
  intros Hc Hk st. unfold bind. specialize (Hc st).
  destruct (c st) as [st' [a|e]]; cbn [fst] in *; [|done].
  destruct (Hk a st') as [-> ->]. done.
Qed.

Lemma keeps_try_except {A} (c : M A) (h : exn → M A) :
  keeps_queue c → (∀ e, keeps_queue (h e)) → keeps_queue (try_except c h).
Proof.
  intros Hc Hh st. unfold try_except. specialize (Hc st).
  destruct (c st) as [st' [a|e]]; cbn [fst] in *; [done|].
  destruct (Hh e st') as [-> ->]. done.
Qed.

Create HintDb frame.
#[local] Hint Resolve keeps_ret keeps_raise keeps_lift keeps_logging keeps_record_call
  keeps_write_file : frame.

Ltac frame :=
  repeat first
    [ progress auto with frame
    | apply keeps_bind; [|intros]
    | apply keeps_try_except; [|intros]
    | match goal with
      | |- keeps_queue (if ?b then _ else _) => destruct b
      | |- keeps_queue (match ?x with _ => _ end) => destruct x
      end ].

Lemma keeps_scan w event_id objects :
  ∀ detections, keeps_queue (scan w event_id objects detections).
Proof.
  induction objects as [|obj rest IH]; intros detections; cbn [scan]; frame.
Qed.

Lemma keeps_mark_event_as_false_positive w event_id :
  keeps_queue (mark_event_as_false_positive w event_id).
Proof. unfold mark_event_as_false_positive. frame. Qed.

Lemma keeps_process_event w ev : keeps_queue (process_event w ev).
Proof.
  unfold process_event, fetch_snapshot.
  pose proof (keeps_scan w (ev_id ev)).
  pose proof (keeps_mark_event_as_false_positive w (ev_id ev)).
  frame.
Qed.

(** ** The listener and the queue *)

Lemma py_get_dict m key default :
  py_get (JObj m) key default = ret (from_option id default (m !! key)).
Proof. reflexivity. Qed.

Ltac discarded :=
  first
    [ eexists [], _; rewrite add_log_nil; split; [reflexivity|by intros [? [=]]]
    | rewrite logging_run; eexists _, _; split; [reflexivity|by intros [? [=]]] ].

Lemma on_message_run w msg st :
  ∃ entries r,
    on_message w msg st =
      (add_log entries
         match event_of_message w msg with
         | Some ev => set_queue (enqueue ev (event_queue st)) st
         | None => st
         end, r) ∧
    (is_Some (event_of_message w msg) → r = Return tt).
Proof.
  unfold on_message, event_of_message, finished_event, identifier.
  destruct (json_loads w (payload msg)) as [v|e].
  2: { destruct (is_JSONDecodeError e); discarded. }
  destruct v as [| | | | | |p]; try discarded.
  rewrite py_get_dict, bind_ret.
  destruct (p !! "type") as [event_type|]; cbn [from_option id]; [|discarded].
  destruct (py_eq_str event_type "end").
  2: { destruct (p !! "after") as [[]|]; discarded. }
  rewrite py_get_dict, bind_ret.
  destruct (p !! "after") as [after|]; cbn [from_option id].
  2: { rewrite !py_get_dict, !bind_ret, lookup_empty. cbn [from_option truthy negb].
       discarded. }
  destruct after as [| | | | | |event]; try discarded.
  rewrite !py_get_dict, !bind_ret. cbn [mbind option_bind].
  destruct (event !! "id") as [event_id|]; cbn [from_option id mbind option_bind].
  2: { cbn [truthy negb]. discarded. }
  destruct (truthy event_id); cbn [negb mbind option_bind]; [|discarded].
  eexists _, _. split; [reflexivity|done].
Qed.

(** ** The worker *)

Lemma serve_run w ev st n :
  unfinished_tasks (event_queue st) = S n →
  serve w ev st =
    (set_queue {| items := items (event_queue st); unfinished_tasks := n |}
       match (process_event w ev st).2 with
       | Return _ => (process_event w ev st).1
       | Raise e =>
           add_log [(ERROR, "Error processing event: " +:+ exn_str e)]
             (process_event w ev st).1
       end,
     Return tt).
Proof.
  intros Hn. unfold serve, try_except, bind.
  destruct (keeps_process_event w ev st) as [Hq _].
  destruct (process_event w ev st) as [st1 [o|e]]; cbn [fst snd] in *.
  - unfold queue_task_done. by rewrite Hq, Hn.
  - rewrite logging_run. unfold queue_task_done, add_log; cbn [event_queue].
    by rewrite Hq, Hn.
Qed.

Lemma keeps_items_of_queue {A} (c : M A) : keeps_queue c → keeps_items c.
Proof. intros H st. destruct (H st) as [-> ->]. done. Qed.

Lemma keeps_items_bind {A B} (c : M A) (k : A → M B) :
  keeps_items c → (∀ a, keeps_items (k a)) → keeps_items (x <- c ;; k x).
Proof.
  intros Hc Hk st. unfold bind. specialize (Hc st).
  destruct (c st) as [st' [a|e]]; cbn [fst] in *; [|done].
  destruct (Hk a st') as [-> ->]. done.
Qed.

Lemma keeps_items_try_except {A} (c : M A) (h : exn → M A) :
  keeps_items c → (∀ e, keeps_items (h e)) → keeps_items (try_except c h).
Proof.
  intros Hc Hh st. unfold try_except. specialize (Hc st).
  destruct (c st) as [st' [a|e]]; cbn [fst] in *; [done|].
  destruct (Hh e st') as [-> ->]. done.
Qed.

Lemma keeps_items_task_done : keeps_items queue_task_done.
Proof. intros st. unfold queue_task_done. by destruct (unfinished_tasks (event_queue st)). Qed.

Lemma keeps_items_serve w ev : keeps_items (serve w ev).
Proof.
  unfold serve. apply keeps_items_try_except; [|intros e]; apply keeps_items_bind.
  - apply keeps_items_of_queue, keeps_process_event.
  - intros _. apply keeps_items_task_done.
  - apply keeps_items_of_queue, keeps_logging.
  - intros _. apply keeps_items_task_done.
Qed.

Lemma consistent_initial : consistent initial_system.
Proof. reflexivity. Qed.

Lemma step_consistent a sys : consistent sys → consistent (step a sys).
Proof.
  destruct sys as [st pc]. unfold consistent, queue_of. destruct a as [w msg| |w].
  - cbn [step sys_state sys_pc]. intros H.
    destruct (on_message_run w msg st) as (entries & r & -> & _).
    cbn [fst add_log event_queue].
    destruct (event_of_message w msg) as [ev|]; [|done].
    cbn [set_queue event_queue enqueue items unfinished_tasks].
    rewrite length_app; cbn [length].
    destruct pc; try done; lia.
  - done.
  - intros H. destruct pc as [| |ev| |e]; cbn [step worker sys_state sys_pc] in *; try done.
    + by destruct (stop_event st).
    + destruct (items (event_queue st)) as [|ev rest] eqn:Hitems; simpl in *; rewrite ?Hitems; simpl; congruence.
    + rewrite (serve_run w ev st _ H). cbn [sys_state sys_pc]. done.
Qed.

Lemma run_app s1 s2 sys : run (s1 ++ s2) sys = run s2 (run s1 sys).
Proof. apply fold_left_app. Qed.

Lemma run_consistent schedule sys : consistent sys → consistent (run schedule sys).
Proof.
  revert sys. induction schedule as [|a rest IH]; intros sys H; [done|].
  apply IH, step_consistent, H.
Qed.

(** Every queued event has a truthy identifier. *)
Lemma step_identified a sys :
  Forall (λ ev, truthy (ev_id ev) = true) (items (queue_of sys)) →
  Forall (λ ev, truthy (ev_id ev) = true) (items (queue_of (step a sys))).
Proof.
  destruct sys as [st pc]. unfold queue_of. destruct a as [w msg| |w].
  - cbn [step sys_state]. intros H.
    destruct (on_message_run w msg st) as (entries & r & -> & _).
    cbn [fst add_log event_queue].
    destruct (event_of_message w msg) as [ev|] eqn:Hev; [|done].
    cbn [set_queue event_queue enqueue items].
    apply Forall_app. split; [done|]. apply Forall_singleton.
    unfold event_of_message, identifier in Hev.
    destruct (finished_event w msg) as [event|]; [|done]. cbn [mbind option_bind] in Hev.
    destruct (event !! "id") as [event_id|]; [|done].
    destruct (truthy event_id) eqn:Hid; [|done].
    cbn [mbind option_bind] in Hev. by injection Hev as <-.
  - done.
  - intros H. destruct pc as [| |ev| |e]; cbn [step worker sys_state sys_pc] in *; try done.
    + by destruct (stop_event st).
    + destruct (items (event_queue st)) as [|ev rest] eqn:Hitems; simpl; [by rewrite Hitems|].
      by apply Forall_cons in H as [_ H].
    + destruct (keeps_items_serve w ev st) as [Hi _].
      destruct (serve w ev st) as [st' [[]|e]]; cbn [sys_state fst] in *; by rewrite Hi.
Qed.

Lemma run_identified schedule sys :
  Forall (λ ev, truthy (ev_id ev) = true) (items (queue_of sys)) →
  Forall (λ ev, truthy (ev_id ev) = true) (items (queue_of (run schedule sys))).
Proof.
  revert sys. induction schedule as [|a rest IH]; intros sys H; [done|].
  apply IH, step_identified, H.
Qed.

(** ** Paths *)

Lemma details_not_snapshot w event_id : details_path w event_id ≠ snapshot_path w event_id.
Proof.
  unfold details_path, snapshot_path. intros H.
  apply (inj (String.append _)) in H. discriminate H.
Qed.

Lemma details_not_output w event_id valid :
  details_path w event_id ≠ output_path w event_id valid.
Proof. unfold details_path, debug_path, output_path. destruct valid; discriminate. Qed.

Lemma snapshot_not_output w event_id valid :
  snapshot_path w event_id ≠ output_path w event_id valid.
Proof. unfold snapshot_path, debug_path, output_path. destruct valid; discriminate. Qed.

(** ** The decision *)

Lemma decided_state_details w ev response img objects entries copy st :
  files (decided_state w ev response img objects entries copy st)
    !! details_path w (ev_id ev) =
  Some (JsonFile (make_debug_info w (ev_id ev) (ev_camera ev)
                    (detection_info <$> considered objects)
                    (existsb qualifying objects))).
Proof.
  unfold decided_state, debug_record; cbn [files].
  destruct copy; cbn [id].
  - rewrite lookup_insert_ne by (symmetry; apply details_not_output).
    rewrite lookup_insert_ne by (symmetry; apply details_not_snapshot).
    apply lookup_insert_eq.
  - rewrite lookup_insert_ne by (symmetry; apply details_not_snapshot).
    apply lookup_insert_eq.
Qed.

Lemma debug_info_final_decision w event_id camera detections valid :
  match make_debug_info w event_id camera detections valid with
  | JObj m => m !! "final_decision"
  | _ => None
  end = Some (JStr (final_decision_str valid)).
Proof. reflexivity. Qed.

Lemma qualifying_spec obj :
  qualifying obj = true ↔
  box_class obj ∈ TARGET_CLASSES ∧ PrimFloat.ltb CONFIDENCE_THRESHOLD (box_conf obj) = true.
Proof.
  unfold qualifying, in_target_classes, passes_threshold.
  rewrite andb_true_iff, bool_decide_eq_true. reflexivity.
Qed.

Lemma exists_qualifying objects :
  existsb qualifying objects = true ↔
  ∃ obj, obj ∈ objects ∧ box_class obj ∈ TARGET_CLASSES ∧
         PrimFloat.ltb CONFIDENCE_THRESHOLD (box_conf obj) = true.
Proof.
  rewrite existsb_exists. split; intros (obj & Hin & Hq); exists obj.
  - apply list_elem_of_In in Hin. by apply qualifying_spec in Hq.
  - apply list_elem_of_In in Hin. by apply qualifying_spec in Hq.
Qed.

Lemma process_event_renders w ev st response img objects :
  truthy (ev_has_snapshot ev) = true →
  requests_get w (snapshot_url w (ev_id ev)) = Return response →
  raise_for_status (snapshot_url w (ev_id ev)) response = Return tt →
  Image_open w (content response) = Return img →
  yolo_model w img = Return objects →
  debug_result w ev (content response) objects = Return tt →
  let st' := (process_event w ev st).1 in
  rendered_decision w (ev_id ev) st' =
    Some (final_decision_str (existsb qualifying objects)) ∧
  false_positive_calls st' =
    false_positive_calls st ++
    (if existsb qualifying objects then []
     else [HttpPut (false_positive_url w (ev_id ev))]).
Proof.
  intros Hsnap Hget Hstatus Himg Hyolo Hsaved st'.
  destruct (process_event_decides w ev st response img objects
              Hsnap Hget Hstatus Himg Hyolo Hsaved) as (entries & Hrun).
  split.
  - unfold rendered_decision, st'. rewrite Hrun. cbn [fst].
    by rewrite decided_state_details.
  - unfold false_positive_calls, st'. rewrite Hrun. cbn [fst decided_state calls].
    rewrite !filter_app. by destruct (existsb qualifying objects).
Qed.

(** C1, as the code has it. When the snapshot is fetched and decoded and the
    detector answers, two cases. If the debug information is saved
    ([os.makedirs] and the two writes under the event's debug directory
    succeed), the decision written for the event is "valid" exactly when some
    detection has a target class and a confidence strictly above the
    threshold; a valid decision issues no false-positive call, and otherwise
    the decision is "false_positive" and exactly one false-positive call, for
    this event's identifier, is issued. If saving the debug information
    raises, that exception leaves [process_event] and no false-positive call
    is issued, whatever the detections. *)
Theorem decision_rule w ev st response img objects :
  truthy (ev_has_snapshot ev) = true →
  requests_get w (snapshot_url w (ev_id ev)) = Return response →
  raise_for_status (snapshot_url w (ev_id ev)) response = Return tt →
  Image_open w (content response) = Return img →
  yolo_model w img = Return objects →
  let st' := (process_event w ev st).1 in
  let qualifies :=
    ∃ obj, obj ∈ objects ∧ box_class obj ∈ TARGET_CLASSES ∧
           PrimFloat.ltb CONFIDENCE_THRESHOLD (box_conf obj) = true in
  (debug_result w ev (content response) objects = Return tt →
     (rendered_decision w (ev_id ev) st' = Some "valid" ↔ qualifies) ∧
     (qualifies → false_positive_calls st' = false_positive_calls st) ∧
     (¬ qualifies →
        rendered_decision w (ev_id ev) st' = Some "false_positive" ∧
        false_positive_calls st' =
          false_positive_calls st ++ [HttpPut (false_positive_url w (ev_id ev))])) ∧
  (∀ e, debug_result w ev (content response) objects = Raise e →
     (process_event w ev st).2 = Raise e ∧
     false_positive_calls st' = false_positive_calls st).
Proof.
  intros Hsnap Hget Hstatus Himg Hyolo st' qualifies. split.
  - intros Hsaved.
    destruct (process_event_renders w ev st response img objects
                Hsnap Hget Hstatus Himg Hyolo Hsaved) as [Hdec Hcalls].
    fold st' in Hdec, Hcalls.
    pose proof (exists_qualifying objects) as Hq. fold qualifies in Hq.
    rewrite Hdec, Hcalls.
    destruct (existsb qualifying objects); cbn [final_decision_str].
    + split; [tauto|]. split; [by rewrite (right_id_L [] (++))|].
      intros Hn. destruct Hn. by apply Hq.
    + split; [|split; [|done]].
      * split; [discriminate|]. intros H%Hq. discriminate.
      * intros H%Hq. discriminate.
  - intros e Hfails.
    destruct (process_event_unsaved w ev st response img objects e
                Hsnap Hget Hstatus Himg Hyolo Hfails) as (Hr & Hcalls & _).
    split; [exact Hr|].
    unfold false_positive_calls, st'. rewrite Hcalls, filter_app.
    apply (right_id_L [] (++)).
Qed.

Lemma decision_rule_witness :
  let ev := example_event "evt-2" true in
  let response := {| status_code := 200; reason := "OK"; content := "JPEG" |} in
  let img := {| size_wh := (640, 480)%Z; pixels := [] |} in
  let objects := [example_box "person" 0.3%float] in
  let st' := (process_event world_B ev initial_state).1 in
  (truthy (ev_has_snapshot ev) = true ∧
   requests_get world_B (snapshot_url world_B (ev_id ev)) = Return response ∧
   raise_for_status (snapshot_url world_B (ev_id ev)) response = Return tt ∧
   Image_open world_B (content response) = Return img ∧
   yolo_model world_B img = Return objects ∧
   debug_result world_B ev (content response) objects = Return tt) ∧
  (¬ (∃ obj, obj ∈ objects ∧ box_class obj ∈ TARGET_CLASSES ∧
             PrimFloat.ltb CONFIDENCE_THRESHOLD (box_conf obj) = true) →
   rendered_decision world_B (ev_id ev) st' = Some "false_positive" ∧
   false_positive_calls st' =
     false_positive_calls initial_state ++
     [HttpPut (false_positive_url world_B (ev_id ev))]).
Proof.
  intros ev response img objects st'.
  split; [repeat split; reflexivity|].
  destruct (decision_rule world_B ev initial_state response img objects
              eq_refl eq_refl eq_refl eq_refl eq_refl) as [Hsaved _].
  destruct (Hsaved eq_refl) as (_ & _ & Hnone). exact Hnone.
Defined.

(** Against C1 as stated: the snapshot of an event whose identifier is 300
    characters long is fetched and decoded, and no detection qualifies; but
    [os.makedirs] refuses the debug directory, so [process_event] raises
    before the decision is written or acted upon: no false-positive call is
    issued and no file is left. *)
Lemma unsaved_event_is_not_marked :
  let ev := example_event long_name true in
  let img := {| size_wh := (640, 480)%Z; pixels := [] |} in
  let objects := [example_box "person" 0.3%float] in
  let r := process_event world_B ev initial_state in
  truthy (ev_has_snapshot ev) = true ∧
  fetch_result world_B (snapshot_url world_B (ev_id ev)) = Return ("JPEG", img) ∧
  yolo_model world_B img = Return objects ∧
  existsb qualifying objects = false ∧
  r.2 = Raise (Exn OSError ("[Errno 36] File name too long: '" +:+
                            debug_path world_B (ev_id ev) +:+ "'")) ∧
  false_positive_calls r.1 = [] ∧
  rendered_decision world_B (ev_id ev) r.1 = None ∧
  written_paths r.1 = [].
Proof. repeat split; vm_compute; reflexivity. Qed.

(** ** The scenarios of the specification, run *)

Example scenario_A :
  let r := process_event world_A (example_event "evt-1" true) initial_state in
  r.2 = Return (Decided true) ∧
  calls r.1 = [HttpGet "http://192.168.0.211:5000/api/events/evt-1/snapshot.jpg";
               Detect {| size_wh := (640, 480)%Z; pixels := [] |}] ∧
  rendered_decision world_A (JStr "evt-1") r.1 = Some "valid".
Proof. vm_compute. done. Qed.

Example scenario_B :
  let r := process_event world_B (example_event "evt-2" true) initial_state in
  r.2 = Return (Decided false) ∧
  false_positive_calls r.1 =
    [HttpPut "http://192.168.0.211:5000/api/events/evt-2/false_positive"] ∧
  rendered_decision world_B (JStr "evt-2") r.1 = Some "false_positive".
Proof. vm_compute. done. Qed.

Example scenario_C :
  process_event world_A (example_event "evt-3" false) initial_state =
    (add_log [(INFO, "Event evt-3 has no snapshot available")] initial_state,
     Return Skipped).
Proof. reflexivity. Qed.

Example scenario_D :
  let r := process_event world_D (example_event "evt-4" true) initial_state in
  r.2 = Return Failed ∧
  calls r.1 = [HttpGet "http://192.168.0.211:5000/api/events/evt-4/snapshot.jpg"] ∧
  files r.1 = ∅.
Proof. vm_compute. done. Qed.

(** ** Events without a snapshot *)

Lemma process_event_skips w ev st :
  truthy (ev_has_snapshot ev) = false →
  process_event w ev st =
    (add_log [(INFO, "Event " +:+ fmt w (ev_id ev) +:+ " has no snapshot available")] st,
     Return Skipped).
Proof.
  intros Hsnap. unfold process_event. rewrite Hsnap. cbn [negb].
  by rewrite bind_logging.
Qed.

(** C2, as the code has it. An event whose [has_snapshot] is false is skipped
    at once: no request is sent, the detector is not called, nothing is
    dispatched and nothing is written; the only trace is one log line naming
    the event. *)
Theorem skipped_without_snapshot w ev st :
  truthy (ev_has_snapshot ev) = false →
  let r := process_event w ev st in
  r.2 = Return Skipped ∧
  calls r.1 = calls st ∧
  files r.1 = files st ∧
  event_queue r.1 = event_queue st ∧
  log r.1 = log st ++ [(INFO, "Event " +:+ fmt w (ev_id ev) +:+ " has no snapshot available")].
Proof.
  intros Hsnap r. subst r. by rewrite process_event_skips.
Qed.

Lemma skipped_without_snapshot_witness :
  let ev := example_event "evt-3" false in
  let r := process_event world_A ev initial_state in
  truthy (ev_has_snapshot ev) = false ∧
  r.2 = Return Skipped ∧
  calls r.1 = calls initial_state ∧
  files r.1 = files initial_state ∧
  event_queue r.1 = event_queue initial_state ∧
  log r.1 = log initial_state ++
            [(INFO, "Event " +:+ fmt world_A (ev_id ev) +:+ " has no snapshot available")].
Proof.
  split; [reflexivity|].
  apply (skipped_without_snapshot world_A (example_event "evt-3" false) initial_state).
  reflexivity.
Defined.

(** Against C2 as stated: event evt-3 has no snapshot, is skipped, and no file
    at all exists afterwards, so no audit record was produced for it. *)
Lemma skipped_event_has_no_audit_record :
  let ev := example_event "evt-3" false in
  let r := process_event world_A ev initial_state in
  truthy (ev_has_snapshot ev) = false ∧
  r.2 = Return Skipped ∧
  files r.1 = ∅ ∧
  record_fields world_A (ev_id ev) r.1 = [].
Proof. repeat split. Qed.

(** ** Fetch and decode failures *)

Lemma process_event_fetch_fails w ev st e :
  truthy (ev_has_snapshot ev) = true →
  fetch_result w (snapshot_url w (ev_id ev)) = Raise e →
  process_event w ev st =
    (add_log [(ERROR, "Error retrieving/processing image for event " +:+
                      fmt w (ev_id ev) +:+ ": " +:+ exn_str e)]
       (add_call (HttpGet (snapshot_url w (ev_id ev)))
          (add_log [(INFO, "Processing event " +:+ fmt w (ev_id ev) +:+
                           " from camera " +:+ fmt w (ev_camera ev))] st)),
     Return Failed).
Proof.
  intros Hsnap Hfetch. unfold process_event. rewrite Hsnap. cbn [negb].
  rewrite bind_logging.
  unfold bind at 1, try_except, bind at 1.
  rewrite fetch_snapshot_run, Hfetch. rewrite bind_logging. reflexivity.
Qed.

(** C3. When the snapshot cannot be fetched or decoded, the event fails: no
    decision is rendered, the only request sent is the snapshot request (no
    false-positive call), no file is written, and the worker is back at its
    loop test with the queue as it was, so it goes on to serve the next
    event. *)
Theorem fetch_failure_is_contained w schedule ev e :
  let sys := run schedule initial_system in
  let st := sys_state sys in
  sys_pc sys = Processing ev →
  truthy (ev_has_snapshot ev) = true →
  fetch_result w (snapshot_url w (ev_id ev)) = Raise e →
  let sys' := worker w sys in
  (process_event w ev st).2 = Return Failed ∧
  calls (sys_state sys') = calls st ++ [HttpGet (snapshot_url w (ev_id ev))] ∧
  files (sys_state sys') = files st ∧
  rendered_decision w (ev_id ev) (sys_state sys') = rendered_decision w (ev_id ev) st ∧
  sys_pc sys' = AtLoopTest ∧
  items (queue_of sys') = items (queue_of sys) ∧
  (stop_event st = false →
   ∀ next rest w1 w2, items (queue_of sys) = next :: rest →
     sys_pc (worker w2 (worker w1 sys')) = Processing next).
Proof.
  intros sys st Hpc Hsnap Hfetch sys'.
  pose proof (run_consistent schedule initial_system consistent_initial) as Hcons.
  fold sys in Hcons. unfold consistent in Hcons. rewrite Hpc in Hcons.
  pose proof (process_event_fetch_fails w ev st e Hsnap Hfetch) as Hrun.
  assert (Hsys' : sys' =
    {| sys_state :=
         set_queue {| items := items (queue_of sys);
                      unfinished_tasks := length (items (queue_of sys)) |}
                   (process_event w ev st).1;
       sys_pc := AtLoopTest |}).
  { unfold sys', worker. rewrite Hpc. fold st.
    rewrite (serve_run w ev st _ Hcons). by rewrite Hrun. }
  rewrite Hsys', Hrun. cbn [fst snd sys_state sys_pc queue_of].
  unfold rendered_decision.
  cbn [set_queue add_log add_call event_queue stop_event log calls files items].
  repeat split; try done.
  intros Hstop next rest w1 w2 Hitems.
  unfold worker at 2.
  cbn [sys_state sys_pc set_queue add_log add_call event_queue stop_event items].
  rewrite Hstop. unfold worker. cbn [sys_state sys_pc event_queue items].
  unfold queue_of in Hitems |- *. fold st in Hitems |- *.
  cbn [set_queue event_queue items]. by rewrite Hitems.
Qed.

Lemma fetch_failure_is_contained_witness :
  let w := world_D in
  let schedule := [Deliver w example_message; WorkerMove w; WorkerMove w] in
  let ev := example_event "evt-4" true in
  let e := Exn HTTPError ("404 Client Error: Not Found for url: " +:+
                          snapshot_url w (ev_id ev)) in
  let sys := run schedule initial_system in
  let sys' := worker w sys in
  (sys_pc sys = Processing ev ∧
   truthy (ev_has_snapshot ev) = true ∧
   fetch_result w (snapshot_url w (ev_id ev)) = Raise e) ∧
  (process_event w ev (sys_state sys)).2 = Return Failed ∧
  calls (sys_state sys') = calls (sys_state sys) ++ [HttpGet (snapshot_url w (ev_id ev))] ∧
  files (sys_state sys') = files (sys_state sys) ∧
  sys_pc sys' = AtLoopTest.
Proof.
  split; [repeat split; vm_compute; reflexivity|].
  pose proof (fetch_failure_is_contained world_D
                [Deliver world_D example_message; WorkerMove world_D; WorkerMove world_D]
                (example_event "evt-4" true)
                (Exn HTTPError ("404 Client Error: Not Found for url: " +:+
                   snapshot_url world_D (ev_id (example_event "evt-4" true))))
                ltac:(vm_compute; reflexivity) eq_refl ltac:(vm_compute; reflexivity))
    as (H1 & H2 & H3 & _ & H5 & _).
  exact (conj H1 (conj H2 (conj H3 H5))).
Defined.

(** ** Failures at the worker boundary *)

(** C4, as the code has it. Whatever exception [process_event] raises is
    caught by the worker, which logs the exception's text (not the event
    identifier), acknowledges the event and is back at its loop test; no run
    of the threads ever leaves the worker crashed. *)
Theorem worker_contains_failures schedule w ev e :
  let sys := run schedule initial_system in
  let r := process_event w ev (sys_state sys) in
  let sys' := worker w sys in
  (∀ crash, sys_pc sys ≠ Crashed crash) ∧
  (sys_pc sys = Processing ev → r.2 = Raise e →
   sys_pc sys' = AtLoopTest ∧
   log (sys_state sys') = log r.1 ++ [(ERROR, "Error processing event: " +:+ exn_str e)] ∧
   items (queue_of sys') = items (queue_of sys) ∧
   unfinished_tasks (queue_of sys') = length (items (queue_of sys))).
Proof.
  intros sys r sys'.
  pose proof (run_consistent schedule initial_system consistent_initial) as Hcons.
  fold sys in Hcons. unfold consistent in Hcons.
  split.
  - intros crash Hpc. by rewrite Hpc in Hcons.
  - intros Hpc Hr. rewrite Hpc in Hcons.
    unfold sys', worker. rewrite Hpc.
    rewrite (serve_run w ev (sys_state sys) _ Hcons). fold r. rewrite Hr.
    cbn [sys_state sys_pc queue_of set_queue add_log event_queue log items unfinished_tasks].
    done.
Qed.

Lemma worker_contains_failures_witness :
  let w := world_detector_down in
  let schedule := [Deliver w example_message; WorkerMove w; WorkerMove w] in
  let ev := example_event "evt-4" true in
  let e := Exn RuntimeError "CUDA out of memory" in
  let sys := run schedule initial_system in
  (sys_pc sys = Processing ev ∧ (process_event w ev (sys_state sys)).2 = Raise e) ∧
  sys_pc (worker w sys) = AtLoopTest ∧
  log (sys_state (worker w sys)) =
    log (process_event w ev (sys_state sys)).1 ++
    [(ERROR, "Error processing event: " +:+ exn_str e)] ∧
  items (queue_of (worker w sys)) = items (queue_of sys) ∧
  unfinished_tasks (queue_of (worker w sys)) = length (items (queue_of sys)).
Proof.
  split; [split; vm_compute; reflexivity|].
  apply (worker_contains_failures
           [Deliver world_detector_down example_message;
            WorkerMove world_detector_down; WorkerMove world_detector_down]
           world_detector_down (example_event "evt-4" true)
           (Exn RuntimeError "CUDA out of memory")); vm_compute; reflexivity.
Defined.

(** Against C4 as stated: event evt-4 is dequeued, the detector fails, the
    worker catches the failure and logs it, and the logged error does not
    mention the event identifier. *)
Lemma worker_error_log_omits_identifier :
  let w := world_detector_down in
  let sys := run [Deliver w example_message; WorkerMove w; WorkerMove w; WorkerMove w]
                 initial_system in
  sys_pc sys = AtLoopTest ∧
  error_messages (sys_state sys) = ["Error processing event: CUDA out of memory"] ∧
  contains "Error processing event: CUDA out of memory" "evt-4" = false.
Proof. vm_compute. done. Qed.

(** ** The listener *)

(** A payload that is not valid JSON is logged and dropped. *)
Lemma invalid_json_is_discarded w msg st e :
  json_loads w (payload msg) = Raise e → is_JSONDecodeError e = true →
  on_message w msg st =
    (add_log [(ERROR, "Received a message that is not valid JSON.")] st, Return tt).
Proof. intros Hloads He. unfold on_message. by rewrite Hloads, He. Qed.

(** Whatever the payload, the queue changes only by the one event of a valid
    finished-event message. *)
Lemma on_message_queue w msg st :
  event_queue (on_message w msg st).1 =
    match event_of_message w msg with
    | Some ev => enqueue ev (event_queue st)
    | None => event_queue st
    end.
Proof.
  destruct (on_message_run w msg st) as (entries & r & -> & _).
  by destruct (event_of_message w msg).
Qed.

(** C5, the code at the failing input: the payload [[]] is valid JSON but not
    an object; [payload.get] raises [AttributeError], which leaves
    [on_message]. *)
Lemma non_object_payload_escapes :
  on_message world_A {| topic := "frigate/events"; payload := "[]" |} initial_state =
    (initial_state, Raise (Exn AttributeError "'list' object has no attribute 'get'")).
Proof. reflexivity. Qed.

(** The same happens for any payload that parses to something other than a
    dict, and for any exception of [json.loads] other than [JSONDecodeError]
    (undecodable bytes raise [UnicodeDecodeError]). *)
Lemma non_dict_payload_escapes w msg st v :
  json_loads w (payload msg) = Return v → type_name v ≠ "dict" →
  on_message w msg st =
    (st, Raise (Exn AttributeError ("'" +:+ type_name v +:+ "' object has no attribute 'get'"))).
Proof.
  intros Hloads Hv. unfold on_message. rewrite Hloads.
  by destruct v.
Qed.

Lemma other_decode_error_escapes w msg st e :
  json_loads w (payload msg) = Raise e → is_JSONDecodeError e = false →
  on_message w msg st = (st, Raise e).
Proof. intros Hloads He. unfold on_message. by rewrite Hloads, He. Qed.

Lemma event_of_message_identified w msg ev :
  event_of_message w msg = Some ev → truthy (ev_id ev) = true.
Proof.
  unfold event_of_message, identifier.
  destruct (finished_event w msg) as [event|]; [|done]. cbn [mbind option_bind].
  destruct (event !! "id") as [event_id|]; [|done].
  destruct (truthy event_id) eqn:Hid; [|done].
  cbn [mbind option_bind]. by intros [= <-].
Qed.

(** C6. A message changes the queue only when it is a finished-event message
    whose record carries a non-empty identifier, and then exactly one event,
    the one the message stands for, goes to the back of the queue; every other
    message leaves the queue as it was. Hence every event that is ever in the
    queue has a non-empty identifier. *)
Theorem only_identified_finished_events_are_queued w msg st schedule :
  match event_of_message w msg with
  | Some ev =>
      truthy (ev_id ev) = true ∧
      items (event_queue (on_message w msg st).1) = items (event_queue st) ++ [ev]
  | None => event_queue (on_message w msg st).1 = event_queue st
  end ∧
  Forall (λ ev, truthy (ev_id ev) = true) (items (queue_of (run schedule initial_system))) ∧
  Forall (λ ev, ev_id ev ≠ JStr "" ∧ ev_id ev ≠ JNull)
         (items (queue_of (run schedule initial_system))).
Proof.
  rewrite on_message_queue.
  assert (Hall : Forall (λ ev, truthy (ev_id ev) = true)
                        (items (queue_of (run schedule initial_system))))
    by (by apply run_identified).
  repeat split.
  - destruct (event_of_message w msg) as [ev|] eqn:Hev; [|done].
    split; [by eapply event_of_message_identified|done].
  - done.
  - eapply Forall_impl; [exact Hall|]. intros ev Hid.
    cbv beta in Hid. split; intros Heq; by rewrite Heq in Hid.
Qed.

(** C10. An accepted finished-event message is queued as an event with all
    four fields, absent ones replaced by their defaults: [None] for the
    camera, the empty list for the labels, [False] for [has_snapshot]. An event
    whose record has no [has_snapshot] is queued all the same and, when it is
    processed, is skipped: no request, no detector call, nothing dispatched,
    no exception. *)
Theorem absent_fields_get_defaults w msg st p event event_id :
  json_loads w (payload msg) = Return (JObj p) →
  p !! "type" = Some (JStr "end") →
  p !! "after" = Some (JObj event) →
  event !! "id" = Some event_id →
  truthy event_id = true →
  let ev := {| ev_id := event_id;
               ev_camera := default JNull (event !! "camera");
               ev_labels := default (JArr []) (event !! "labels");
               ev_has_snapshot := default (JBool false) (event !! "has_snapshot") |} in
  (on_message w msg st).2 = Return tt ∧
  items (event_queue (on_message w msg st).1) = items (event_queue st) ++ [ev] ∧
  (event !! "labels" = None → ev_labels ev = JArr []) ∧
  (event !! "has_snapshot" = None →
   ev_has_snapshot ev = JBool false ∧
   ∀ w' st', (process_event w' ev st').2 = Return Skipped ∧
             calls (process_event w' ev st').1 = calls st' ∧
             files (process_event w' ev st').1 = files st').
Proof.
  intros Hloads Htype Hafter Hid Htruthy ev.
  assert (Hev : event_of_message w msg = Some ev).
  { unfold event_of_message, finished_event, identifier.
    rewrite Hloads, Htype, Hafter. cbn [py_eq_str].
    rewrite String.eqb_refl. cbn [mbind option_bind]. rewrite Hid, Htruthy. done. }
  destruct (on_message_run w msg st) as (entries & r & Hrun & Hr).
  rewrite Hrun, Hev in *. cbn [fst snd].
  split; [apply Hr; eauto|]. split; [done|].
  split; [intros Hl; subst ev; cbn [ev_labels]; by rewrite Hl|].
  intros Hnone. subst ev. cbn [ev_has_snapshot]. rewrite Hnone. split; [done|].
  intros w' st'. by rewrite process_event_skips.
Qed.

Lemma absent_fields_get_defaults_witness :
  let w := world_bare "evt-5" in
  let event := bare_record "evt-5" in
  let p : gmap string json := <["type" := JStr "end"]> (<["after" := JObj event]> ∅) in
  let ev := {| ev_id := JStr "evt-5"; ev_camera := JNull; ev_labels := JArr [];
               ev_has_snapshot := JBool false |} in
  (json_loads w (payload example_message) = Return (JObj p) ∧
   p !! "type" = Some (JStr "end") ∧
   p !! "after" = Some (JObj event) ∧
   event !! "id" = Some (JStr "evt-5") ∧
   truthy (JStr "evt-5") = true) ∧
  (on_message w example_message initial_state).2 = Return tt ∧
  items (event_queue (on_message w example_message initial_state).1) = [ev].
Proof.
  split; [repeat split; vm_compute; reflexivity|].
  destruct (absent_fields_get_defaults (world_bare "evt-5") example_message initial_state
              (<["type" := JStr "end"]> (<["after" := JObj (bare_record "evt-5")]> ∅))
              (bare_record "evt-5") (JStr "evt-5")
              eq_refl eq_refl eq_refl eq_refl eq_refl) as (H1 & H2 & _).
  exact (conj H1 H2).
Defined.

(** ** Shutdown *)

Lemma step_stop_event a sys :
  stop_event (sys_state sys) = true → stop_event (sys_state (step a sys)) = true.
Proof.
  destruct sys as [st pc]. destruct a as [w msg| |w]; cbn [step sys_state]; intros Hstop.
  - destruct (on_message_run w msg st) as (entries & r & -> & _).
    by destruct (event_of_message w msg).
  - done.
  - destruct pc as [| |ev| |e]; cbn [worker sys_state sys_pc]; try done.
    + by rewrite Hstop.
    + by destruct (items (event_queue st)).
    + destruct (keeps_items_serve w ev st) as [_ Hs].
      destruct (serve w ev st) as [st' [[]|e]]; cbn [sys_state fst] in *; congruence.
Qed.

Lemma step_pc_after_stop a sys :
  stop_event (sys_state sys) = true → sys_pc sys ≠ AtGet → sys_pc (step a sys) ≠ AtGet.
Proof.
  destruct sys as [st pc]. destruct a as [w msg| |w]; cbn [step sys_state sys_pc]; try done.
  intros Hstop Hpc. destruct pc as [| |ev| |e]; cbn [worker sys_state sys_pc]; try done.
  - by rewrite Hstop.
  - by destruct (serve w ev st) as [st' [[]|e]].
Qed.

Lemma no_get_once_stop_is_seen schedule :
  ∀ sys, stop_event (sys_state sys) = true → sys_pc sys ≠ AtGet →
         gets_started_after_stop schedule sys = 0.
Proof.
  induction schedule as [|a rest IH]; intros sys Hstop Hpc; [done|].
  cbn [gets_started_after_stop].
  rewrite IH by eauto using step_stop_event, step_pc_after_stop.
  destruct a; try done. by destruct (sys_pc sys).
Qed.

Lemma one_get_in_flight schedule :
  ∀ sys, stop_event (sys_state sys) = true → gets_started_after_stop schedule sys ≤ 1.
Proof.
  induction schedule as [|a rest IH]; intros sys Hstop; [cbn; lia|].
  assert (sys_pc sys = AtGet ∨ sys_pc sys ≠ AtGet) as [Hpc|Hpc]
    by (destruct (sys_pc sys); auto).
  2: { rewrite no_get_once_stop_is_seen by done. lia. }
  cbn [gets_started_after_stop]. rewrite Hpc.
  destruct a as [w msg| |w].
  - specialize (IH (step (Deliver w msg) sys) (step_stop_event _ _ Hstop)). lia.
  - specialize (IH (step SetStop sys) (step_stop_event _ _ Hstop)). lia.
  - rewrite Hstop. rewrite no_get_once_stop_is_seen; [lia| by apply step_stop_event |].
    destruct sys as [st pc]. cbn [sys_pc sys_state] in *. subst pc.
    cbn [step worker sys_state sys_pc]. by destruct (items (event_queue st)).
Qed.

Lemma at_most_one_get_after_stop schedule :
  ∀ sys, gets_started_after_stop schedule sys ≤ 1.
Proof.
  induction schedule as [|a rest IH]; intros sys; [cbn; lia|].
  destruct (stop_event (sys_state sys)) eqn:Hstop; [by apply one_get_in_flight|].
  cbn [gets_started_after_stop]. rewrite Hstop. specialize (IH (step a sys)).
  destruct a; try done. by destruct (sys_pc sys).
Qed.

Lemma exited_stays_exited schedule :
  ∀ sys, sys_pc sys = Exited →
    sys_pc (run schedule sys) = Exited ∧
    ∃ delivered, items (queue_of (run schedule sys)) = items (queue_of sys) ++ delivered.
Proof.
  induction schedule as [|a rest IH]; intros sys Hpc.
  - split; [done|]. exists []. by rewrite (right_id_L [] (++)).
  - cbn [run fold_left]. change (fold_left _ rest ?s) with (run rest s).
    assert (Hstep : sys_pc (step a sys) = Exited ∧
                    ∃ d, items (queue_of (step a sys)) = items (queue_of sys) ++ d).
    { destruct sys as [st pc]. cbn [sys_pc] in Hpc. subst pc. unfold queue_of.
      destruct a as [w msg| |w]; cbn [step worker sys_state sys_pc].
      - split; [done|]. rewrite on_message_queue.
        destruct (event_of_message w msg) as [ev|]; [by exists [ev]|].
        exists []. by rewrite (right_id_L [] (++)).
      - split; [done|]. exists []. by rewrite (right_id_L [] (++)).
      - split; [done|]. exists []. by rewrite (right_id_L [] (++)). }
    destruct Hstep as [Hpc' [d Hd]].
    destruct (IH (step a sys) Hpc') as [Hpc'' [d' Hd']].
    split; [done|]. exists (d ++ d'). by rewrite Hd', Hd, (assoc_L (++)).
Qed.

(** C7, as the code has it. The worker looks at the stop flag only at its loop
    test. Once the flag is up and the worker is anywhere but between a passed
    test and its [get], it starts no dequeue; a worker caught between the two
    still starts that one [get], so at most one dequeue starts after the flag
    is raised. A worker holding an event when the flag goes up runs the whole
    pipeline for it, returns to the loop test and exits without touching the
    queue. After the worker has exited, whatever is queued stays queued. *)
Theorem cooperative_shutdown schedule sys w w' ev :
  gets_started_after_stop schedule sys ≤ 1 ∧
  (stop_event (sys_state sys) = true → sys_pc sys ≠ AtGet →
   gets_started_after_stop schedule sys = 0) ∧
  (stop_event (sys_state sys) = true → sys_pc sys = Processing ev → consistent sys →
   let r := process_event w ev (sys_state sys) in
   let sys1 := worker w sys in
   let sys2 := worker w' sys1 in
   calls (sys_state sys1) = calls r.1 ∧ files (sys_state sys1) = files r.1 ∧
   sys_pc sys1 = AtLoopTest ∧ sys_pc sys2 = Exited ∧
   items (queue_of sys2) = items (queue_of sys)) ∧
  (sys_pc sys = Exited →
   sys_pc (run schedule sys) = Exited ∧
   ∃ delivered, items (queue_of (run schedule sys)) = items (queue_of sys) ++ delivered).
Proof.
  split; [apply at_most_one_get_after_stop|].
  split; [apply no_get_once_stop_is_seen|].
  split; [|apply exited_stays_exited].
  intros Hstop Hpc Hcons r sys1 sys2.
  unfold consistent in Hcons. rewrite Hpc in Hcons.
  destruct (keeps_process_event w ev (sys_state sys)) as [_ Hs]. fold r in Hs.
  assert (Hsys1 : sys1 =
    {| sys_state :=
         set_queue {| items := items (queue_of sys);
                      unfinished_tasks := length (items (queue_of sys)) |}
           match r.2 with
           | Return _ => r.1
           | Raise e => add_log [(ERROR, "Error processing event: " +:+ exn_str e)] r.1
           end;
       sys_pc := AtLoopTest |}).
  { unfold sys1, worker. rewrite Hpc. by rewrite (serve_run w ev (sys_state sys) _ Hcons). }
  assert (Hstop1 : stop_event (sys_state sys1) = true).
  { rewrite Hsys1. cbn [sys_state set_queue stop_event].
    destruct r.2; cbn [add_log stop_event]; congruence. }
  assert (Hsys2 : sys2 = {| sys_state := sys_state sys1; sys_pc := Exited |}).
  { unfold sys2, worker. rewrite Hsys1 in Hstop1 |- *. cbn [sys_pc sys_state] in *.
    by rewrite Hstop1. }
  rewrite Hsys2, Hsys1. cbn [sys_state sys_pc queue_of set_queue event_queue calls files items].
  by destruct r.2.
Qed.

Lemma cooperative_shutdown_witness :
  let w := world_B in
  let ev := example_event "evt-2" true in
  let sys := {| sys_state := stop_event_set (set_queue {| items := [example_event "evt-3" false];
                                                          unfinished_tasks := 2 |} initial_state);
                sys_pc := Processing ev |} in
  let schedule := [WorkerMove w; WorkerMove w; WorkerMove w] in
  (stop_event (sys_state sys) = true ∧ sys_pc sys = Processing ev ∧ consistent sys) ∧
  gets_started_after_stop schedule sys = 0 ∧
  calls (sys_state (worker w sys)) = calls (process_event w ev (sys_state sys)).1 ∧
  sys_pc (worker w (worker w sys)) = Exited ∧
  items (queue_of (worker w (worker w sys))) = [example_event "evt-3" false].
Proof.
  split; [repeat split; reflexivity|].
  pose proof (cooperative_shutdown
                [WorkerMove world_B; WorkerMove world_B; WorkerMove world_B]
                {| sys_state := stop_event_set (set_queue {| items := [example_event "evt-3" false];
                                                             unfinished_tasks := 2 |} initial_state);
                   sys_pc := Processing (example_event "evt-2" true) |}
                world_B world_B (example_event "evt-2" true))
    as (_ & H0 & Hmid & _).
  destruct (Hmid eq_refl eq_refl eq_refl) as (Hc & _ & _ & Hx & Hi).
  exact (conj (H0 eq_refl ltac:(discriminate)) (conj Hc (conj Hx Hi))).
Defined.

(** Against C7 as stated: the worker passes its loop test, then the stop flag
    is raised, then the worker starts its [get] and dequeues the event: one
    dequeue started after the stop signal. *)
Lemma dequeue_starts_after_stop_signal :
  let w := world_bare "evt-9" in
  let schedule := [Deliver w example_message; WorkerMove w; SetStop; WorkerMove w] in
  stop_event (sys_state (run [Deliver w example_message; WorkerMove w; SetStop]
                             initial_system)) = true ∧
  gets_started_after_stop schedule initial_system = 1 ∧
  sys_pc (run schedule initial_system) =
    Processing {| ev_id := JStr "evt-9"; ev_camera := JNull; ev_labels := JArr [];
                  ev_has_snapshot := JBool false |}.
Proof. vm_compute. done. Qed.

(** Items still queued when the worker exits are left in the queue. *)
Example queue_not_drained_on_shutdown :
  let w := world_bare "evt-9" in
  let sys := run [Deliver w example_message; Deliver w example_message; SetStop;
                  WorkerMove w; WorkerMove w; WorkerMove w] initial_system in
  sys_pc sys = Exited ∧ length (items (queue_of sys)) = 2.
Proof. vm_compute. done. Qed.

(** ** Order of the detections *)

Lemma existsb_Permutation {A} (f : A → bool) (l l' : list A) :
  l ≡ₚ l' → existsb f l = existsb f l'.
Proof.
  induction 1 as [|x l l' _ IH|x y l|l l' l'' _ IH1 _ IH2]; cbn [existsb].
  - reflexivity.
  - by rewrite IH.
  - by destruct (f x), (f y).
  - by rewrite IH1.
Qed.

(** C8. The decision does not depend on the order in which the detector lists
    its results: when the detector answers with a permutation of the same
    detections, the scan, which stops at the first qualifying one, ends with
    the same [valid_detection]; and when the debug information is saved in
    both cases, the same decision is written for the event and the same
    false-positive calls are issued. The recorded trails may differ. *)
Theorem decision_order_independent w ev st response img objects objects' :
  truthy (ev_has_snapshot ev) = true →
  requests_get w (snapshot_url w (ev_id ev)) = Return response →
  raise_for_status (snapshot_url w (ev_id ev)) response = Return tt →
  Image_open w (content response) = Return img →
  objects ≡ₚ objects' →
  let st1 := (process_event (with_detector w (fun _ => Return objects)) ev st).1 in
  let st2 := (process_event (with_detector w (fun _ => Return objects')) ev st).1 in
  (∀ detections st0, ∃ valid_detection s1 s2 trail1 trail2,
     scan w (ev_id ev) objects detections st0 = (s1, Return (valid_detection, trail1)) ∧
     scan w (ev_id ev) objects' detections st0 = (s2, Return (valid_detection, trail2))) ∧
  (debug_result w ev (content response) objects = Return tt →
   debug_result w ev (content response) objects' = Return tt →
   is_Some (rendered_decision w (ev_id ev) st1) ∧
   rendered_decision w (ev_id ev) st1 = rendered_decision w (ev_id ev) st2 ∧
   false_positive_calls st1 = false_positive_calls st2).
Proof.
  intros Hsnap Hget Hstatus Himg Hperm st1 st2.
  pose proof (existsb_Permutation qualifying _ _ Hperm) as Hsame.
  split.
  { intros detections st0.
    destruct (scan_run w (ev_id ev) objects detections st0) as [entries1 H1].
    destruct (scan_run w (ev_id ev) objects' detections st0) as [entries2 H2].
    rewrite H1, H2, Hsame. eauto 10. }
  intros Hsaved1 Hsaved2.
  destruct (process_event_renders (with_detector w (fun _ => Return objects)) ev st
              response img objects Hsnap Hget Hstatus Himg eq_refl Hsaved1) as [Hd1 Hc1].
  destruct (process_event_renders (with_detector w (fun _ => Return objects')) ev st
              response img objects' Hsnap Hget Hstatus Himg eq_refl Hsaved2) as [Hd2 Hc2].
  fold st1 in Hd1, Hc1. fold st2 in Hd2, Hc2.
  change (rendered_decision (with_detector w _) ?i ?s) with (rendered_decision w i s) in *.
  change (false_positive_url (with_detector w _) ?i) with (false_positive_url w i) in *.
  rewrite Hd1, Hd2, Hc1, Hc2, Hsame. eauto.
Qed.

Lemma decision_order_independent_witness :
  let w := world_A in
  let ev := example_event "evt-1" true in
  let response := {| status_code := 200; reason := "OK"; content := "JPEG" |} in
  let img := {| size_wh := (640, 480)%Z; pixels := [] |} in
  let objects := [example_box "bird" 0.9%float; example_box "person" 0.82%float] in
  let objects' := [example_box "person" 0.82%float; example_box "bird" 0.9%float] in
  let st1 := (process_event (with_detector w (fun _ => Return objects)) ev initial_state).1 in
  let st2 := (process_event (with_detector w (fun _ => Return objects')) ev initial_state).1 in
  (truthy (ev_has_snapshot ev) = true ∧
   requests_get w (snapshot_url w (ev_id ev)) = Return response ∧
   raise_for_status (snapshot_url w (ev_id ev)) response = Return tt ∧
   Image_open w (content response) = Return img ∧
   objects ≡ₚ objects' ∧
   debug_result w ev (content response) objects = Return tt ∧
   debug_result w ev (content response) objects' = Return tt) ∧
  rendered_decision w (ev_id ev) st1 = rendered_decision w (ev_id ev) st2 ∧
  false_positive_calls st1 = false_positive_calls st2.
Proof.
  split; [repeat split; try reflexivity; apply perm_swap|].
  destruct (decision_order_independent world_A (example_event "evt-1" true) initial_state
              {| status_code := 200; reason := "OK"; content := "JPEG" |}
              {| size_wh := (640, 480)%Z; pixels := [] |}
              [example_box "bird" 0.9%float; example_box "person" 0.82%float]
              [example_box "person" 0.82%float; example_box "bird" 0.9%float]
              eq_refl eq_refl eq_refl eq_refl (perm_swap _ _ _)) as (_ & H).
  destruct (H eq_refl eq_refl) as (_ & H1 & H2).
  exact (conj H1 H2).
Defined.

(** The trail, by contrast, follows the order: with a bird first the record
    lists the bird and the person, with the person first only the person. *)
Example evidence_trail_is_order_dependent :
  let ev := example_event "evt-1" true in
  let bird := example_box "bird" 0.9%float in
  let person := example_box "person" 0.82%float in
  let st1 := (process_event (with_detector world_A (fun _ => Return [bird; person]))
                ev initial_state).1 in
  let st2 := (process_event (with_detector world_A (fun _ => Return [person; bird]))
                ev initial_state).1 in
  recorded_detections world_A (ev_id ev) st1 =
    Some (JArr [detection_info bird; detection_info person]) ∧
  recorded_detections world_A (ev_id ev) st2 = Some (JArr [detection_info person]).
Proof. vm_compute. done. Qed.

(** ** What is persisted *)

Lemma debug_info_fields w event_id camera detections valid :
  match make_debug_info w event_id camera detections valid with
  | JObj m => (map_to_list m).*1
  | _ => []
  end = ["confidence_threshold"; "camera"; "event_id"; "final_decision"; "timestamp";
         "detections"].
Proof. vm_compute. reflexivity. Qed.

Lemma process_event_detector_fails w ev st response img e :
  truthy (ev_has_snapshot ev) = true →
  requests_get w (snapshot_url w (ev_id ev)) = Return response →
  raise_for_status (snapshot_url w (ev_id ev)) response = Return tt →
  Image_open w (content response) = Return img →
  yolo_model w img = Raise e →
  process_event w ev st =
    (add_call (Detect img)
       (add_call (HttpGet (snapshot_url w (ev_id ev)))
          (add_log [(INFO, "Processing event " +:+ fmt w (ev_id ev) +:+
                           " from camera " +:+ fmt w (ev_camera ev))] st)),
     Raise e).
Proof.
  intros Hsnap Hget Hstatus Himg Hyolo.
  pose proof (fetch_result_fetched w _ response img Hget Hstatus Himg) as Hfetch.
  unfold process_event. rewrite Hsnap. cbn [negb].
  rewrite bind_logging.
  unfold bind at 1, try_except, bind at 1.
  rewrite fetch_snapshot_run, Hfetch. cbn [ret].
  rewrite bind_record_call, Hyolo, bind_lift_Raise. reflexivity.
Qed.

(** C9, as the code has it. For an event whose snapshot is fetched and
    decoded and whose detections are listed, [process_event] makes the
    directory [reviewed_images/debug/<id>] and then writes, in this order,
    the record (event id, timestamp, camera, every considered detection,
    threshold and final decision, and no target classes) to
    [detection_details.json] in it, the raw snapshot next to it as
    [snapshot.jpg], and a copy of the snapshot to [reviewed_images/true/<id>.jpg]
    or [reviewed_images/false/<id>.jpg] by decision. When the directory and
    the first two writes succeed, the record and the snapshot are there; the
    copy is there when [process_event] returns. A step that raises ends
    [process_event] with its exception: if it is [os.makedirs], nothing is
    written. No other file is touched. Nothing is written for an event that
    is skipped or whose fetch, decode or detection fails. *)
Theorem audit_layout w ev st :
  (truthy (ev_has_snapshot ev) = false → files (process_event w ev st).1 = files st) ∧
  (∀ e, truthy (ev_has_snapshot ev) = true →
        fetch_result w (snapshot_url w (ev_id ev)) = Raise e →
        files (process_event w ev st).1 = files st) ∧
  (∀ response img,
     truthy (ev_has_snapshot ev) = true →
     requests_get w (snapshot_url w (ev_id ev)) = Return response →
     raise_for_status (snapshot_url w (ev_id ev)) response = Return tt →
     Image_open w (content response) = Return img →
     (∀ e, yolo_model w img = Raise e → files (process_event w ev st).1 = files st) ∧
     (∀ objects, yolo_model w img = Return objects →
        let valid := existsb qualifying objects in
        let st' := (process_event w ev st).1 in
        (debug_result w ev (content response) objects = Return tt →
           files st' !! details_path w (ev_id ev) =
             Some (JsonFile (make_debug_info w (ev_id ev) (ev_camera ev)
                               (detection_info <$> considered objects) valid)) ∧
           record_fields w (ev_id ev) st' =
             ["confidence_threshold"; "camera"; "event_id"; "final_decision"; "timestamp";
              "detections"] ∧
           files st' !! snapshot_path w (ev_id ev) = Some (RawFile (content response)) ∧
           ((process_event w ev st).2 = Return (Decided valid) →
            files st' !! output_path w (ev_id ev) valid =
              Some (RawFile (content response)))) ∧
        (∀ e, debug_result w ev (content response) objects = Raise e →
           (process_event w ev st).2 = Raise e ∧
           (os_makedirs w (debug_path w (ev_id ev)) = Raise e → files st' = files st)) ∧
        (∀ path, path ≠ details_path w (ev_id ev) → path ≠ snapshot_path w (ev_id ev) →
                 path ≠ output_path w (ev_id ev) valid →
                 files st' !! path = files st !! path))).
Proof.
  split; [|split].
  - intros Hsnap. by rewrite process_event_skips.
  - intros e Hsnap Hfetch. by rewrite (process_event_fetch_fails w ev st e Hsnap Hfetch).
  - intros response img Hsnap Hget Hstatus Himg. split.
    + intros e Hyolo.
      by rewrite (process_event_detector_fails w ev st response img e
                    Hsnap Hget Hstatus Himg Hyolo).
    + intros objects Hyolo valid st'. split; [|split].
      * intros Hsaved.
        destruct (process_event_decides w ev st response img objects
                    Hsnap Hget Hstatus Himg Hyolo Hsaved) as (entries & Hrun).
        assert (Hdetails : files st' !! details_path w (ev_id ev) =
                  Some (JsonFile (make_debug_info w (ev_id ev) (ev_camera ev)
                                    (detection_info <$> considered objects) valid))).
        { unfold st'. rewrite Hrun. apply decided_state_details. }
        split; [exact Hdetails|].
        split. { unfold record_fields. rewrite Hdetails. apply debug_info_fields. }
        unfold st'. rewrite Hrun. cbn [fst snd decided_state files]. fold valid.
        unfold copy_result.
        destruct (if valid then None else put_escapes w (ev_id ev)) as [e|];
          [|destruct (open_write w (output_path w (ev_id ev) valid)
                        (RawFile (content response)))]; cbn [fst snd id].
        -- split; [apply lookup_insert_eq|done].
        -- split; [|intros _; apply lookup_insert_eq].
           rewrite lookup_insert_ne by (symmetry; apply snapshot_not_output).
           apply lookup_insert_eq.
        -- split; [apply lookup_insert_eq|done].
        -- split; [|done].
           rewrite lookup_insert_ne by (symmetry; apply snapshot_not_output).
           apply lookup_insert_eq.
      * intros e Hfails.
        destruct (process_event_unsaved w ev st response img objects e
                    Hsnap Hget Hstatus Himg Hyolo Hfails) as (Hr & _ & _ & Hmk).
        split; [exact Hr|]. apply Hmk.
      * intros path Hd Hs Ho.
        destruct (debug_result w ev (content response) objects) as [[]|e] eqn:Hsaved.
        -- destruct (process_event_decides w ev st response img objects
                       Hsnap Hget Hstatus Himg Hyolo Hsaved) as (entries & Hrun).
           unfold st'. rewrite Hrun. cbn [fst decided_state files]. fold valid.
           destruct (copy_result w ev (content response) valid).1; cbn [id];
             by rewrite !lookup_insert_ne.
        -- destruct (process_event_unsaved w ev st response img objects e
                       Hsnap Hget Hstatus Himg Hyolo Hsaved) as (_ & _ & Hframe & _).
           by apply Hframe.
Qed.

Lemma audit_layout_witness :
  let w := world_A in
  let ev := example_event "evt-1" true in
  let response := {| status_code := 200; reason := "OK"; content := "JPEG" |} in
  let img := {| size_wh := (640, 480)%Z; pixels := [] |} in
  let objects := [example_box "person" 0.82%float] in
  let st' := (process_event w ev initial_state).1 in
  (truthy (ev_has_snapshot ev) = true ∧
   requests_get w (snapshot_url w (ev_id ev)) = Return response ∧
   raise_for_status (snapshot_url w (ev_id ev)) response = Return tt ∧
   Image_open w (content response) = Return img ∧
   yolo_model w img = Return objects ∧
   debug_result w ev (content response) objects = Return tt ∧
   (process_event w ev initial_state).2 = Return (Decided (existsb qualifying objects))) ∧
  files st' !! snapshot_path w (ev_id ev) = Some (RawFile (content response)) ∧
  files st' !! output_path w (ev_id ev) (existsb qualifying objects) =
    Some (RawFile (content response)).
Proof.
  split; [repeat split; vm_compute; reflexivity|].
  destruct (audit_layout world_A (example_event "evt-1" true) initial_state)
    as (_ & _ & H).
  destruct (H {| status_code := 200; reason := "OK"; content := "JPEG" |}
              {| size_wh := (640, 480)%Z; pixels := [] |}
              eq_refl eq_refl eq_refl eq_refl) as [_ Hdecided].
  destruct (Hdecided [example_box "person" 0.82%float] eq_refl) as (Hsaved & _ & _).
  destruct (Hsaved eq_refl) as (_ & _ & Hs & Ho).
  exact (conj Hs (Ho ltac:(vm_compute; reflexivity))).
Defined.

(** Against C9 as stated: the valid event evt-1 leaves exactly three files,
    none of them under [valid/evt-1]; its record has no field for the target
    classes; and the skipped event evt-3 and the failed event evt-4 leave no
    file at all. *)
Lemma audit_is_not_partitioned_by_outcome :
  let ev := example_event "evt-1" true in
  let st' := (process_event world_A ev initial_state).1 in
  written_paths st' =
    ["reviewed_images/true/evt-1.jpg";
     "reviewed_images/debug/evt-1/snapshot.jpg";
     "reviewed_images/debug/evt-1/detection_details.json"] ∧
  files st' !! "valid/evt-1" = None ∧
  record_fields world_A (ev_id ev) st' =
    ["confidence_threshold"; "camera"; "event_id"; "final_decision"; "timestamp";
     "detections"] ∧
  (process_event world_A (example_event "evt-3" false) initial_state).2 = Return Skipped ∧
  written_paths (process_event world_A (example_event "evt-3" false) initial_state).1 = [] ∧
  (process_event world_D (example_event "evt-4" true) initial_state).2 = Return Failed ∧
  written_paths (process_event world_D (example_event "evt-4" true) initial_state).1 = [].
Proof. repeat split; vm_compute; reflexivity. Qed.

(** The copy needs its directory: for the identifier [a/b] the debug
    directory is made and the record and the snapshot are written there, but
    nothing makes [reviewed_images/true/a], so the final [open] raises and no
    copy is left. *)
Example copy_needs_its_directory :
  let ev := example_event "a/b" true in
  let r := process_event world_A ev initial_state in
  r.2 = Raise (Exn FileNotFoundError
                 "[Errno 2] No such file or directory: 'reviewed_images/true/a/b.jpg'") ∧
  written_paths r.1 =
    ["reviewed_images/debug/a/b/snapshot.jpg";
     "reviewed_images/debug/a/b/detection_details.json"] ∧
  rendered_decision world_A (ev_id ev) r.1 = Some "valid".
Proof. repeat split; vm_compute; reflexivity. Qed.

(** * Further properties *)

(** ** Marking a false positive *)

(** X1. [mark_event_as_false_positive] sends exactly one PUT to the event's
    false_positive URL and never a second one, whatever the answer; it writes
    no file and leaves the queue alone. A 200 answer is logged at level INFO,
    any other status and any [RequestException] at level ERROR, and in all
    these cases the function returns; only an exception that is not a
    [RequestException] leaves it, with nothing logged. *)
Theorem false_positive_call_is_sent_once w event_id st :
  let url := false_positive_url w event_id in
  let r := mark_event_as_false_positive w event_id st in
  calls r.1 = calls st ++ [HttpPut url] ∧
  files r.1 = files st ∧
  event_queue r.1 = event_queue st ∧
  (∀ response, requests_put w url = Return response →
     r.2 = Return tt ∧
     log r.1 = log st ++
       [if (status_code response =? 200)%Z
        then (INFO, "Event " +:+ fmt w event_id +:+ " marked as false positive")
        else (ERROR, "Failed to mark event " +:+ fmt w event_id +:+
                     " as false positive. Status code: " +:+
                     pretty (status_code response))]) ∧
  (∀ e, requests_put w url = Raise e →
     if is_RequestException e
     then r.2 = Return tt ∧
          log r.1 = log st ++ [(ERROR, "Error marking event " +:+ fmt w event_id +:+
                                       " as false positive: " +:+ exn_str e)]
     else r.2 = Raise e ∧ log r.1 = log st).
Proof.
  intros url r. subst r url. unfold mark_event_as_false_positive.
  rewrite bind_record_call.
  destruct (requests_put w (false_positive_url w event_id)) as [response|e].
  - destruct (status_code response =? 200)%Z eqn:Hstatus; rewrite logging_run;
      cbn [fst snd add_log add_call calls files event_queue log];
      (split_and!; [done..| |done]); intros ? [= <-]; by rewrite Hstatus.
  - destruct (is_RequestException e) eqn:He.
    + rewrite logging_run. cbn [fst snd add_log add_call calls files event_queue log].
      split_and!; [done..|]. intros ? [= <-]. by rewrite He.
    + cbn [raise fst snd add_call calls files event_queue log].
      split_and!; [done..|]. intros ? [= <-]. by rewrite He.
Qed.

(** ** Detector failures *)

(** X2. When the detector raises, [process_event] raises the same exception
    right after the snapshot request and the detector call: no false-positive
    call is issued and no file is written, so a failing detector never turns
    an event into a false positive. *)
Theorem detector_failure_marks_nothing w ev st response img e :
  truthy (ev_has_snapshot ev) = true →
  requests_get w (snapshot_url w (ev_id ev)) = Return response →
  raise_for_status (snapshot_url w (ev_id ev)) response = Return tt →
  Image_open w (content response) = Return img →
  yolo_model w img = Raise e →
  let r := process_event w ev st in
  r.2 = Raise e ∧
  calls r.1 = calls st ++ [HttpGet (snapshot_url w (ev_id ev)); Detect img] ∧
  false_positive_calls r.1 = false_positive_calls st ∧
  files r.1 = files st.
Proof.
  intros Hsnap Hget Hstatus Himg Hyolo r. subst r.
  rewrite (process_event_detector_fails w ev st response img e Hsnap Hget Hstatus Himg Hyolo).
  unfold false_positive_calls.
  cbn [fst snd add_call add_log calls files].
  rewrite <- (assoc_L (++)). split_and!; [done..| |done].
  rewrite filter_app. apply (right_id_L [] (++)).
Qed.

Lemma detector_failure_marks_nothing_witness :
  let w := world_detector_down in
  let ev := example_event "evt-4" true in
  let response := {| status_code := 200; reason := "OK"; content := "JPEG" |} in
  let img := {| size_wh := (640, 480)%Z; pixels := [] |} in
  let e := Exn RuntimeError "CUDA out of memory" in
  let r := process_event w ev initial_state in
  (truthy (ev_has_snapshot ev) = true ∧
   requests_get w (snapshot_url w (ev_id ev)) = Return response ∧
   raise_for_status (snapshot_url w (ev_id ev)) response = Return tt ∧
   Image_open w (content response) = Return img ∧
   yolo_model w img = Raise e) ∧
  r.2 = Raise e ∧
  calls r.1 = calls initial_state ++ [HttpGet (snapshot_url w (ev_id ev)); Detect img] ∧
  false_positive_calls r.1 = false_positive_calls initial_state ∧
  files r.1 = files initial_state.
Proof.
  split; [repeat split; reflexivity|].
  apply (detector_failure_marks_nothing world_detector_down (example_event "evt-4" true)
           initial_state {| status_code := 200; reason := "OK"; content := "JPEG" |}
           {| size_wh := (640, 480)%Z; pixels := [] |}
           (Exn RuntimeError "CUDA out of memory")); reflexivity.
Defined.

(** ** The recorded trail *)

Lemma considered_prefix objects : considered objects `prefix_of` objects.
Proof.
  induction objects as [|obj rest IH]; cbn [considered]; [done|].
  destruct (qualifying obj).
  - by apply prefix_cons, prefix_nil.
  - by apply prefix_cons.
Qed.

Lemma considered_no_match objects :
  existsb qualifying objects = false → considered objects = objects.
Proof.
  induction objects as [|obj rest IH]; cbn [considered existsb]; [done|].
  destruct (qualifying obj); [done|]. cbn [orb]. intros H. by rewrite IH.
Qed.

Lemma considered_match objects :
  existsb qualifying objects = true →
  ∃ obj, last (considered objects) = Some obj ∧ qualifying obj = true.
Proof.
  induction objects as [|obj rest IH]; cbn [considered existsb]; [done|].
  destruct (qualifying obj) eqn:Hq; [by exists obj|]. cbn [orb]. intros H.
  destruct (IH H) as (obj' & Hlast & Hq'). exists obj'. split; [|done].
  destruct (considered rest); [done|]. done.
Qed.

Lemma considered_stops objects : stops_at_first_match (considered objects).
Proof.
  unfold stops_at_first_match.
  induction objects as [|obj rest IH]; cbn [considered]; [done|].
  destruct (qualifying obj) eqn:Hq.
  - intros [|i] obj' Hi Hlen; cbn in *; [lia|done].
  - intros [|i] obj' Hi Hlen; cbn in *.
    + by injection Hi as <-.
    + apply (IH i); [done|lia].
Qed.

(** X3. The trail of detections that [process_event] puts into the record
    is a prefix of the detector's results, cut right after the first
    qualifying one: when no detection qualifies it lists all of them, and
    when one does it ends with it and nothing before it qualifies. This is
    the trail the loop returns, and, when the debug information is saved,
    the one found in the event's [detection_details.json]. *)
Theorem evidence_trail_stops_at_first_match w ev st response img objects :
  truthy (ev_has_snapshot ev) = true →
  requests_get w (snapshot_url w (ev_id ev)) = Return response →
  raise_for_status (snapshot_url w (ev_id ev)) response = Return tt →
  Image_open w (content response) = Return img →
  yolo_model w img = Return objects →
  ∃ trail,
    (∀ st0, (scan w (ev_id ev) objects [] st0).2 =
              Return (existsb qualifying objects, detection_info <$> trail)) ∧
    (debug_result w ev (content response) objects = Return tt →
     recorded_detections w (ev_id ev) (process_event w ev st).1 =
       Some (JArr (detection_info <$> trail))) ∧
    trail `prefix_of` objects ∧
    stops_at_first_match trail ∧
    (existsb qualifying objects = false → trail = objects) ∧
    (existsb qualifying objects = true →
     ∃ obj, last trail = Some obj ∧ qualifying obj = true).
Proof.
  intros Hsnap Hget Hstatus Himg Hyolo.
  exists (considered objects). split_and!.
  - intros st0. by destruct (scan_run w (ev_id ev) objects [] st0) as [entries ->].
  - intros Hsaved.
    destruct (process_event_decides w ev st response img objects
                Hsnap Hget Hstatus Himg Hyolo Hsaved) as (entries & Hrun).
    unfold recorded_detections. rewrite Hrun. cbn [fst].
    by rewrite decided_state_details.
  - apply considered_prefix.
  - apply considered_stops.
  - apply considered_no_match.
  - apply considered_match.
Qed.

Lemma evidence_trail_stops_at_first_match_witness :
  let w := with_detector world_A
             (fun _ => Return [example_box "bird" 0.9%float; example_box "person" 0.82%float;
                               example_box "dog" 0.9%float]) in
  let ev := example_event "evt-1" true in
  let response := {| status_code := 200; reason := "OK"; content := "JPEG" |} in
  let img := {| size_wh := (640, 480)%Z; pixels := [] |} in
  let objects := [example_box "bird" 0.9%float; example_box "person" 0.82%float;
                  example_box "dog" 0.9%float] in
  (truthy (ev_has_snapshot ev) = true ∧
   requests_get w (snapshot_url w (ev_id ev)) = Return response ∧
   raise_for_status (snapshot_url w (ev_id ev)) response = Return tt ∧
   Image_open w (content response) = Return img ∧
   yolo_model w img = Return objects ∧
   debug_result w ev (content response) objects = Return tt) ∧
  ∃ trail,
    recorded_detections w (ev_id ev) (process_event w ev initial_state).1 =
      Some (JArr (detection_info <$> trail)) ∧
    trail `prefix_of` objects.
Proof.
  split; [repeat split; reflexivity|].
  destruct (evidence_trail_stops_at_first_match
              (with_detector world_A
                 (fun _ => Return [example_box "bird" 0.9%float;
                                   example_box "person" 0.82%float;
                                   example_box "dog" 0.9%float]))
              (example_event "evt-1" true) initial_state
              {| status_code := 200; reason := "OK"; content := "JPEG" |}
              {| size_wh := (640, 480)%Z; pixels := [] |}
              [example_box "bird" 0.9%float; example_box "person" 0.82%float;
               example_box "dog" 0.9%float]
              eq_refl eq_refl eq_refl eq_refl eq_refl) as (trail & _ & H1 & H2 & _).
  exists trail. exact (conj (H1 eq_refl) H2).
Defined.

(** X4. [process_event] never touches the queue or the stop flag: whatever
    the event, the world and the way it ends (decision, skip, failure or
    exception), both are as they were before the call. *)
Theorem process_event_leaves_queue_and_flag w ev st :
  event_queue (process_event w ev st).1 = event_queue st ∧
  stop_event (process_event w ev st).1 = stop_event st.
Proof. apply keeps_process_event. Qed.

(** ** The listener, case by case *)

(** X5. [on_message] only ever logs and enqueues: it sends no request, calls
    no detector, writes no file and does not touch the stop flag; the events
    already queued stay in place and in order, and at most one event is added
    behind them. *)
Theorem listener_only_enqueues w msg st :
  let st' := (on_message w msg st).1 in
  calls st' = calls st ∧
  files st' = files st ∧
  stop_event st' = stop_event st ∧
  items (event_queue st) `prefix_of` items (event_queue st') ∧
  length (items (event_queue st')) ≤ S (length (items (event_queue st))).
Proof.
  intros st'. subst st'.
  destruct (on_message_run w msg st) as (entries & r & -> & _).
  cbn [fst add_log calls files stop_event event_queue].
  destruct (event_of_message w msg) as [ev|];
    cbn [set_queue calls files stop_event event_queue enqueue items].
  - split_and!; try done.
    + by apply prefix_app_r.
    + rewrite length_app. cbn. lia.
  - split_and!; try done. lia.
Qed.

(** X6. A payload that is not valid JSON is logged as an error and dropped:
    [on_message] returns normally and nothing but the log changes. *)
Theorem malformed_json_is_logged_and_dropped w msg st e :
  json_loads w (payload msg) = Raise e →
  is_JSONDecodeError e = true →
  on_message w msg st =
    (add_log [(ERROR, "Received a message that is not valid JSON.")] st, Return tt).
Proof. intros Hloads He. unfold on_message. by rewrite Hloads, He. Qed.

Lemma malformed_json_is_logged_and_dropped_witness :
  let msg := {| topic := "frigate/events"; payload := "{not json" |} in
  let e := Exn JSONDecodeError "Expecting value: line 1 column 1 (char 0)" in
  (json_loads world_A (payload msg) = Raise e ∧ is_JSONDecodeError e = true) ∧
  on_message world_A msg initial_state =
    (add_log [(ERROR, "Received a message that is not valid JSON.")] initial_state,
     Return tt).
Proof.
  split; [split; reflexivity|].
  apply (malformed_json_is_logged_and_dropped world_A
           {| topic := "frigate/events"; payload := "{not json" |} initial_state
           (Exn JSONDecodeError "Expecting value: line 1 column 1 (char 0)"));
    reflexivity.
Defined.

(** X7. A JSON object whose type is anything but ["end"] (or that has no type
    at all) is ignored without a trace: the state, log included, is exactly as
    before, and [on_message] returns normally. *)
Theorem other_message_types_are_ignored w msg st p :
  json_loads w (payload msg) = Return (JObj p) →
  py_eq_str (default JNull (p !! "type")) "end" = false →
  on_message w msg st = (st, Return tt).
Proof.
  intros Hloads Htype. unfold on_message. rewrite Hloads, py_get_dict, bind_ret.
  by rewrite Htype.
Qed.

Lemma other_message_types_are_ignored_witness :
  let p : gmap string json :=
    <["type" := JStr "update"]> (<["after" := JObj (example_record "evt-1" true)]> ∅) in
  let w := example_world (fun _ => Return (JObj p)) (ok_response "JPEG") (Return [])
             (ok_response "") in
  (json_loads w (payload example_message) = Return (JObj p) ∧
   py_eq_str (default JNull (p !! "type")) "end" = false) ∧
  on_message w example_message initial_state = (initial_state, Return tt).
Proof.
  split; [split; reflexivity|].
  apply (other_message_types_are_ignored
           (example_world
              (fun _ => Return (JObj (<["type" := JStr "update"]>
                                        (<["after" := JObj (example_record "evt-1" true)]> ∅))))
              (ok_response "JPEG") (Return []) (ok_response ""))
           example_message initial_state
           (<["type" := JStr "update"]> (<["after" := JObj (example_record "evt-1" true)]> ∅)));
    reflexivity.
Defined.

(** X8. A finished event whose record has no identifier, or an empty one
    (the empty string, [None], [0], ...), is logged as an error and dropped;
    so is a finished event with no ["after"] record at all. The queue is not
    touched and [on_message] returns normally. *)
Theorem event_without_id_is_logged_and_dropped w msg st p event :
  json_loads w (payload msg) = Return (JObj p) →
  py_eq_str (default JNull (p !! "type")) "end" = true →
  default (JObj ∅) (p !! "after") = JObj event →
  truthy (default JNull (event !! "id")) = false →
  on_message w msg st =
    (add_log [(ERROR, "Received an event without an ID. Skipping.")] st, Return tt).
Proof.
  intros Hloads Htype Hafter Hid. unfold on_message.
  rewrite Hloads, py_get_dict, bind_ret, Htype, py_get_dict, bind_ret.
  change (from_option id (JObj ∅) (p !! "after")) with (default (JObj ∅) (p !! "after")).
  rewrite Hafter, !py_get_dict, !bind_ret.
  change (from_option id JNull (event !! "id")) with (default JNull (event !! "id")).
  by rewrite Hid.
Qed.

Lemma event_without_id_is_logged_and_dropped_witness :
  let event : gmap string json := {["id" := JStr ""; "camera" := JStr "front_door"]} in
  let p : gmap string json := <["type" := JStr "end"]> (<["after" := JObj event]> ∅) in
  let w := example_world (fun _ => Return (JObj p)) (ok_response "JPEG") (Return [])
             (ok_response "") in
  (json_loads w (payload example_message) = Return (JObj p) ∧
   py_eq_str (default JNull (p !! "type")) "end" = true ∧
   default (JObj ∅) (p !! "after") = JObj event ∧
   truthy (default JNull (event !! "id")) = false) ∧
  on_message w example_message initial_state =
    (add_log [(ERROR, "Received an event without an ID. Skipping.")] initial_state,
     Return tt).
Proof.
  split; [repeat split; reflexivity|].
  apply (event_without_id_is_logged_and_dropped
           (example_world
              (fun _ => Return (JObj (<["type" := JStr "end"]>
                 (<["after" := JObj {["id" := JStr ""; "camera" := JStr "front_door"]}]> ∅))))
              (ok_response "JPEG") (Return []) (ok_response ""))
           example_message initial_state
           (<["type" := JStr "end"]>
              (<["after" := JObj {["id" := JStr ""; "camera" := JStr "front_door"]}]> ∅))
           {["id" := JStr ""; "camera" := JStr "front_door"]}); reflexivity.
Defined.

(** ** The queue between listener and worker *)

Lemma step_items a sys :
  match a, sys_pc sys, items (queue_of sys) with
  | WorkerMove _, AtGet, ev :: _ => [ev]
  | _, _, _ => []
  end ++ items (queue_of (step a sys)) =
  items (queue_of sys) ++ accepted [a].
Proof.
  destruct sys as [st pc]. unfold queue_of. destruct a as [w msg| |w]; cbn [accepted].
  - cbn [step sys_state sys_pc]. rewrite on_message_queue.
    destruct (event_of_message w msg) as [ev|]; cbn [enqueue items app].
    + done.
    + by rewrite (right_id_L [] (++)).
  - cbn [step sys_state app]. by rewrite (right_id_L [] (++)).
  - rewrite (right_id_L [] (++)).
    destruct pc as [| |ev| |e]; cbn [step worker sys_state sys_pc app].
    + by destruct (stop_event st).
    + destruct (items (event_queue st)) as [|ev rest] eqn:Hitems; simpl; by rewrite ?Hitems.
    + destruct (keeps_items_serve w ev st) as [Hi _].
      by destruct (serve w ev st) as [st' [[]|e]].
    + done.
    + done.
Qed.

Lemma accepted_cons a schedule : accepted (a :: schedule) = accepted [a] ++ accepted schedule.
Proof.
  destruct a as [w msg| |w]; cbn [accepted]; try done.
  by destruct (event_of_message w msg).
Qed.

(** X9. Between listener and worker nothing is lost, duplicated or
    reordered: along any interleaving of the threads, the events the worker
    has dequeued, followed by the events still queued, are exactly the events
    that were queued at the start followed by the events of the accepted
    messages, in the order of their arrival. *)
Theorem queue_is_first_in_first_out schedule sys :
  taken schedule sys ++ items (queue_of (run schedule sys)) =
  items (queue_of sys) ++ accepted schedule.
Proof.
  revert sys. induction schedule as [|a rest IH]; intros sys.
  - cbn. by rewrite (right_id_L [] (++)).
  - cbn [taken run fold_left]. change (fold_left _ rest ?s) with (run rest s).
    rewrite <- (assoc_L (++)), IH, (assoc_L (++)), step_items, (accepted_cons a rest).
    by rewrite (assoc_L (++)).
Qed.

(** X10. The counter behind [task_done] always equals the number of queued
    events plus the one the worker is holding: every event is acknowledged
    exactly once, also when its processing raised, and [task_done] is never
    called once too often. *)
Theorem unfinished_tasks_are_counted schedule :
  let sys := run schedule initial_system in
  unfinished_tasks (queue_of sys) =
    length (items (queue_of sys)) +
    match sys_pc sys with
    | Processing _ => 1
    | _ => 0
    end.
Proof.
  intros sys.
  pose proof (run_consistent schedule initial_system consistent_initial) as Hcons.
  fold sys in Hcons. unfold consistent in Hcons.
  destruct (sys_pc sys); try done; lia.
Qed.

Lemma step_without_stop a sys :
  is_set_stop a = false →
  stop_event (sys_state sys) = false → sys_pc sys ≠ Exited →
  stop_event (sys_state (step a sys)) = false ∧ sys_pc (step a sys) ≠ Exited.
Proof.
  destruct sys as [st pc]. destruct a as [w msg| |w]; [|done|];
    cbn [step sys_state sys_pc]; intros _ Hstop Hpc.
  - destruct (on_message_run w msg st) as (entries & r & -> & _).
    by destruct (event_of_message w msg).
  - destruct pc as [| |ev| |e]; cbn [worker sys_state sys_pc]; try done.
    + by rewrite Hstop.
    + by destruct (items (event_queue st)).
    + destruct (keeps_items_serve w ev st) as [_ Hs].
      destruct (serve w ev st) as [st' [[]|e]]; cbn [sys_state sys_pc fst] in *;
        split; congruence.
Qed.

(** X11. Only the stop flag ends the worker: as long as no thread sets it,
    the flag stays down and the worker never leaves its loop, whatever is
    delivered and however processing goes. *)
Theorem worker_runs_until_stopped schedule :
  forallb (λ a, negb (is_set_stop a)) schedule = true →
  let sys := run schedule initial_system in
  stop_event (sys_state sys) = false ∧ sys_pc sys ≠ Exited ∧ ∀ e, sys_pc sys ≠ Crashed e.
Proof.
  intros Hno sys.
  assert (H : ∀ s, stop_event (sys_state s) = false → sys_pc s ≠ Exited →
                   stop_event (sys_state (run schedule s)) = false ∧
                   sys_pc (run schedule s) ≠ Exited).
  { clear sys. induction schedule as [|a rest IH]; intros s Hstop Hpc; [done|].
    cbn [forallb] in Hno. apply andb_true_iff in Hno as [Ha Hrest].
    apply negb_true_iff in Ha.
    destruct (step_without_stop a s Ha Hstop Hpc) as [Hstop' Hpc'].
    by apply IH. }
  destruct (H initial_system eq_refl ltac:(discriminate)) as [Hstop Hpc].
  split_and!; [done..|].
  pose proof (run_consistent schedule initial_system consistent_initial) as Hcons.
  fold sys in Hcons. unfold consistent in Hcons.
  intros e He. by rewrite He in Hcons.
Qed.

Lemma worker_runs_until_stopped_witness :
  let w := world_D in
  let schedule := [Deliver w example_message; WorkerMove w; WorkerMove w; WorkerMove w;
                   WorkerMove w; WorkerMove w] in
  forallb (λ a, negb (is_set_stop a)) schedule = true ∧
  stop_event (sys_state (run schedule initial_system)) = false ∧
  sys_pc (run schedule initial_system) ≠ Exited.
Proof.
  split; [reflexivity|].
  destruct (worker_runs_until_stopped
              [Deliver world_D example_message; WorkerMove world_D; WorkerMove world_D;
               WorkerMove world_D; WorkerMove world_D; WorkerMove world_D] eq_refl)
    as (H1 & H2 & _).
  exact (conj H1 H2).
Defined.

(** X16. A finished event delivered to an idle worker is served by the next
    three moves of the worker: it is dequeued, [process_event] runs once on it
    (its requests and files are those of that one run), and the event is
    acknowledged, which leaves the queue empty, the counter at zero and the
    worker back at its loop test, whether processing returned or raised. *)
Theorem delivered_event_is_served w msg ev w1 w2 w3 :
  event_of_message w msg = Some ev →
  let sys := run [Deliver w msg; WorkerMove w1; WorkerMove w2; WorkerMove w3]
                 initial_system in
  let st0 := set_queue {| items := []; unfinished_tasks := 1 |}
               (on_message w msg initial_state).1 in
  let r := process_event w3 ev st0 in
  sys_pc sys = AtLoopTest ∧
  event_queue (sys_state sys) = {| items := []; unfinished_tasks := 0 |} ∧
  calls (sys_state sys) = calls r.1 ∧
  files (sys_state sys) = files r.1 ∧
  taken [Deliver w msg; WorkerMove w1; WorkerMove w2; WorkerMove w3] initial_system = [ev].
Proof.
  intros Hev sys st0 r.
  destruct (on_message_run w msg initial_state) as (entries & r0 & Hrun & _).
  rewrite Hev in Hrun.
  assert (Hst0 : st0 = set_queue {| items := []; unfinished_tasks := 1 |}
                         (add_log entries initial_state)).
  { unfold st0. rewrite Hrun. reflexivity. }
  assert (Hsys : sys = worker w3 {| sys_state := st0; sys_pc := Processing ev |}).
  { unfold sys, st0. cbn [run fold_left step].
    change (sys_state initial_system) with initial_state. rewrite Hrun. reflexivity. }
  assert (Htaken : taken [Deliver w msg; WorkerMove w1; WorkerMove w2; WorkerMove w3]
                     initial_system = [ev]).
  { cbn [taken step].
    change (sys_state initial_system) with initial_state. rewrite Hrun. reflexivity. }
  rewrite Hsys. unfold worker. cbn [sys_state sys_pc].
  rewrite (serve_run w3 ev st0 0) by (by rewrite Hst0).
  fold r. cbn [sys_state sys_pc set_queue event_queue calls files].
  rewrite Hst0 at 1. cbn [set_queue event_queue items].
  split_and!; try done; by destruct r.2.
Qed.

Lemma delivered_event_is_served_witness :
  let w := world_D in
  let ev := example_event "evt-4" true in
  let sys := run [Deliver w example_message; WorkerMove w; WorkerMove w; WorkerMove w]
                 initial_system in
  event_of_message w example_message = Some ev ∧
  sys_pc sys = AtLoopTest ∧
  event_queue (sys_state sys) = {| items := []; unfinished_tasks := 0 |}.
Proof.
  split; [reflexivity|].
  destruct (delivered_event_is_served world_D example_message (example_event "evt-4" true)
              world_D world_D world_D eq_refl) as (H1 & H2 & _).
  exact (conj H1 H2).
Defined.

(** ** The connection callback *)

Lemma on_connect_run client rc st :
  ∃ entries,
    on_connect client rc st =
      (add_log entries st,
       Return (if (rc =? 0)%Z then client_subscribe MQTT_TOPIC client else client)).
Proof.
  unfold on_connect. destruct (rc =? 0)%Z.
  - rewrite !bind_logging, add_log_add_log. eauto.
  - rewrite bind_logging. eauto.
Qed.

Lemma thread_step_client a p :
  proc_client (thread_step a p) =
    if is_successful_connect a then client_subscribe MQTT_TOPIC (proc_client p)
    else proc_client p.
Proof.
  destruct a as [rc|w msg|w]; cbn [thread_step proc_client is_successful_connect]; try done.
  destruct (on_connect_run (proc_client p) rc (sys_state (proc_sys p))) as [entries ->].
  cbn [snd]. by destruct (rc =? 0)%Z.
Qed.

(** X13. Every connection the broker accepts (return code 0) makes
    [on_connect] subscribe once more to [frigate/events/#], and a refused one
    subscribes to nothing: after any run of the threads the client has been
    given one [subscribe] call per accepted connection, all for that topic,
    and [on_connect] never disconnects it. *)
Theorem subscribes_on_every_accepted_connection schedule p :
  subscriptions (proc_client (threads schedule p)) =
    subscriptions (proc_client p) ++ replicate (successful_connects schedule) MQTT_TOPIC ∧
  disconnected (proc_client (threads schedule p)) = disconnected (proc_client p).
Proof.
  revert p. induction schedule as [|a rest IH]; intros p.
  - cbn. by rewrite (right_id_L [] (++)).
  - cbn [threads fold_left]. change (fold_left _ rest ?q) with (threads rest q).
    destruct (IH (thread_step a p)) as [-> ->]. rewrite thread_step_client.
    unfold successful_connects. cbn [List.filter].
    destruct (is_successful_connect a).
    + cbn [length replicate client_subscribe subscriptions disconnected].
      by rewrite <- (assoc_L (++)).
    + done.
Qed.

(** ** Shutting down *)

Lemma thread_step_sys a p :
  match a with
  | ClientConnects rc =>
      ∃ entries, proc_sys (thread_step a p) =
                 {| sys_state := add_log entries (sys_state (proc_sys p));
                    sys_pc := sys_pc (proc_sys p) |}
  | ClientDelivers w msg => proc_sys (thread_step a p) = step (Deliver w msg) (proc_sys p)
  | WorkerMoves w => proc_sys (thread_step a p) = step (WorkerMove w) (proc_sys p)
  end.
Proof.
  destruct a as [rc|w msg|w]; cbn [thread_step proc_sys]; try done.
  destruct (on_connect_run (proc_client p) rc (sys_state (proc_sys p))) as [entries ->].
  eauto.
Qed.

Lemma thread_step_consistent a p :
  consistent (proc_sys p) → consistent (proc_sys (thread_step a p)).
Proof.
  pose proof (thread_step_sys a p) as H. destruct a as [rc|w msg|w].
  - destruct H as [entries ->]. done.
  - rewrite H. apply step_consistent.
  - rewrite H. apply step_consistent.
Qed.

Lemma threads_consistent schedule p :
  consistent (proc_sys p) → consistent (proc_sys (threads schedule p)).
Proof.
  revert p. induction schedule as [|a rest IH]; intros p H; [done|].
  apply IH, thread_step_consistent, H.
Qed.

Lemma thread_step_stop_event a p :
  stop_event (sys_state (proc_sys p)) = true →
  stop_event (sys_state (proc_sys (thread_step a p))) = true.
Proof.
  pose proof (thread_step_sys a p) as H. destruct a as [rc|w msg|w].
  - destruct H as [entries ->]. done.
  - rewrite H. apply step_stop_event.
  - rewrite H. apply step_stop_event.
Qed.

Lemma worker_move_towards_exit w sys :
  stop_event (sys_state sys) = true → consistent sys →
  moves_to_exit (sys_pc (worker w sys)) ≤ pred (moves_to_exit (sys_pc sys)).
Proof.
  destruct sys as [st pc]. unfold consistent, queue_of. cbn [sys_state sys_pc].
  intros Hstop Hcons. destruct pc as [| |ev| |e]; cbn [worker sys_state sys_pc].
  - rewrite Hstop. cbn. lia.
  - destruct (items (event_queue st)); cbn; lia.
  - rewrite (serve_run w ev st _ Hcons). cbn. lia.
  - cbn. lia.
  - done.
Qed.

Lemma thread_step_towards_exit a p :
  stop_event (sys_state (proc_sys p)) = true → consistent (proc_sys p) →
  moves_to_exit (sys_pc (proc_sys (thread_step a p))) ≤
    if is_worker_move a then pred (moves_to_exit (sys_pc (proc_sys p)))
    else moves_to_exit (sys_pc (proc_sys p)).
Proof.
  intros Hstop Hcons. pose proof (thread_step_sys a p) as H.
  destruct a as [rc|w msg|w]; cbn [is_worker_move].
  - destruct H as [entries ->]. done.
  - rewrite H. done.
  - rewrite H. by apply worker_move_towards_exit.
Qed.

Lemma join_returns schedule :
  ∀ p, stop_event (sys_state (proc_sys p)) = true → consistent (proc_sys p) →
       moves_to_exit (sys_pc (proc_sys p)) ≤ worker_moves schedule →
       ∃ p', join schedule p = (p', true) ∧
             sys_pc (proc_sys p') = Exited ∧
             stop_event (sys_state (proc_sys p')) = true.
Proof.
  induction schedule as [|a rest IH]; intros p Hstop Hcons Hmoves.
  - unfold worker_moves in Hmoves. cbn in Hmoves. unfold consistent in Hcons.
    destruct (sys_pc (proc_sys p)) eqn:Hpc; cbn in Hmoves; try lia.
    exists p. cbn [join]. by rewrite Hpc.
  - cbn [join]. unfold consistent in Hcons.
    destruct (sys_pc (proc_sys p)) eqn:Hpc; [| | |by exists p|done].
    all: apply IH;
      [by apply thread_step_stop_event
      |apply thread_step_consistent; unfold consistent; by rewrite Hpc
      |].
    all: pose proof (thread_step_towards_exit a p Hstop) as Hle;
      unfold consistent in Hle; rewrite Hpc in Hle; specialize (Hle Hcons);
      unfold worker_moves in *; cbn [List.filter] in Hmoves;
      destruct (is_worker_move a); cbn in Hmoves, Hle; lia.
Qed.

(** X12. Shutdown ends: once [main] has raised the stop flag, three moves of
    the worker thread at most bring the worker out of its loop, whatever the
    client thread delivers meanwhile and however the event in hand fares, so
    [worker_thread.join()] returns; [main] then disconnects the client and
    logs "Shutdown complete" as its last line, with the stop flag up and the
    worker exited. *)
Theorem main_shuts_down running joining :
  3 ≤ worker_moves joining →
  ∃ p, main (Return tt) running joining = ShutDown p ∧
       sys_pc (proc_sys p) = Exited ∧
       stop_event (sys_state (proc_sys p)) = true ∧
       disconnected (proc_client p) = true ∧
       last (log (sys_state (proc_sys p))) = Some (INFO, "Shutdown complete").
Proof.
  intros Hmoves. unfold main.
  pose proof (threads_consistent running initial_process consistent_initial) as Hcons.
  set (p0 := threads running initial_process) in *.
  set (p2 := main_step stop_event_set
               (main_step (λ st, (logging INFO "Shutting down..." st).1) p0)).
  destruct (join_returns joining p2) as (p' & Hjoin & Hpc & Hstop).
  - reflexivity.
  - unfold p2, main_step, consistent, queue_of in *. cbn [proc_sys sys_state sys_pc] in *.
    by destruct (sys_pc (proc_sys p0)).
  - unfold p2, main_step. cbn [proc_sys sys_pc].
    destruct (sys_pc (proc_sys p0)); cbn; lia.
  - rewrite Hjoin. eexists. split; [reflexivity|].
    unfold main_step. cbn [proc_sys proc_client sys_state sys_pc client_disconnect
                           disconnected fst logging log stop_event].
    split_and!; try done. apply last_snoc.
Qed.

Lemma main_shuts_down_witness :
  let w := world_B in
  let msg := example_message in
  let running := [ClientConnects 0; ClientDelivers (world_bare "evt-7") msg; WorkerMoves w] in
  let joining := [WorkerMoves w; ClientDelivers (world_bare "evt-8") msg; WorkerMoves w;
                  WorkerMoves w] in
  3 ≤ worker_moves joining ∧
  ∃ p, main (Return tt) running joining = ShutDown p ∧
       sys_pc (proc_sys p) = Exited ∧
       stop_event (sys_state (proc_sys p)) = true ∧
       disconnected (proc_client p) = true ∧
       last (log (sys_state (proc_sys p))) = Some (INFO, "Shutdown complete").
Proof.
  split; [vm_compute; lia|].
  apply (main_shuts_down
           [ClientConnects 0; ClientDelivers (world_bare "evt-7") example_message;
            WorkerMoves world_B]
           [WorkerMoves world_B; ClientDelivers (world_bare "evt-8") example_message;
            WorkerMoves world_B; WorkerMoves world_B]).
  vm_compute. lia.
Defined.

(** ** Redelivery and the threshold *)

(** X14. Nothing remembers which events were already handled: a finished-event
    message delivered twice is queued twice, and processing the same event a
    second time, its debug information being saved as before, sends its
    false-positive call a second time. *)
Theorem redelivery_is_processed_again w msg ev st response img objects :
  event_of_message w msg = Some ev →
  truthy (ev_has_snapshot ev) = true →
  requests_get w (snapshot_url w (ev_id ev)) = Return response →
  raise_for_status (snapshot_url w (ev_id ev)) response = Return tt →
  Image_open w (content response) = Return img →
  yolo_model w img = Return objects →
  existsb qualifying objects = false →
  items (event_queue (on_message w msg (on_message w msg st).1).1) =
    items (event_queue st) ++ [ev; ev] ∧
  (debug_result w ev (content response) objects = Return tt →
   false_positive_calls (process_event w ev (process_event w ev st).1).1 =
     false_positive_calls st ++
     [HttpPut (false_positive_url w (ev_id ev));
      HttpPut (false_positive_url w (ev_id ev))]).
Proof.
  intros Hev Hsnap Hget Hstatus Himg Hyolo Hnone. split.
  - rewrite !on_message_queue, Hev. cbn [enqueue items].
    by rewrite <- (assoc_L (++)).
  - intros Hsaved.
    destruct (process_event_renders w ev (process_event w ev st).1 response img objects
                Hsnap Hget Hstatus Himg Hyolo Hsaved) as [_ ->].
    destruct (process_event_renders w ev st response img objects
                Hsnap Hget Hstatus Himg Hyolo Hsaved) as [_ ->].
    rewrite Hnone. by rewrite <- (assoc_L (++)).
Qed.

Lemma redelivery_is_processed_again_witness :
  let w := example_world (fun _ => Return (finished_payload (example_record "evt-2" true)))
             (ok_response "JPEG") (Return [example_box "person" 0.3%float])
             (ok_response "") in
  let ev := example_event "evt-2" true in
  let response := {| status_code := 200; reason := "OK"; content := "JPEG" |} in
  let img := {| size_wh := (640, 480)%Z; pixels := [] |} in
  let objects := [example_box "person" 0.3%float] in
  (event_of_message w example_message = Some ev ∧
   truthy (ev_has_snapshot ev) = true ∧
   requests_get w (snapshot_url w (ev_id ev)) = Return response ∧
   raise_for_status (snapshot_url w (ev_id ev)) response = Return tt ∧
   Image_open w (content response) = Return img ∧
   yolo_model w img = Return objects ∧
   existsb qualifying objects = false ∧
   debug_result w ev (content response) objects = Return tt) ∧
  items (event_queue (on_message w example_message
                        (on_message w example_message initial_state).1).1) = [ev; ev] ∧
  false_positive_calls (process_event w ev (process_event w ev initial_state).1).1 =
    [HttpPut (false_positive_url w (ev_id ev)); HttpPut (false_positive_url w (ev_id ev))].
Proof.
  split; [repeat split; reflexivity|].
  destruct (redelivery_is_processed_again
              (example_world
                 (fun _ => Return (finished_payload (example_record "evt-2" true)))
                 (ok_response "JPEG") (Return [example_box "person" 0.3%float])
                 (ok_response ""))
              example_message (example_event "evt-2" true) initial_state
              {| status_code := 200; reason := "OK"; content := "JPEG" |}
              {| size_wh := (640, 480)%Z; pixels := [] |}
              [example_box "person" 0.3%float]
              eq_refl eq_refl eq_refl eq_refl eq_refl eq_refl eq_refl) as [Hqueue Hcalls].
  exact (conj Hqueue (Hcalls eq_refl)).
Defined.

Lemma at_threshold_does_not_qualify obj :
  box_conf obj = CONFIDENCE_THRESHOLD ∨ box_conf obj = not_a_number →
  qualifying obj = false.
Proof.
  unfold qualifying, passes_threshold.
  intros [Hc | Hc]; rewrite Hc; destruct (in_target_classes (box_class obj));
    vm_compute; reflexivity.
Qed.

(** X15. The threshold is strict: detections whose confidence is exactly the
    threshold 0.5, or not a number, never make an event valid, whatever their
    class: with only such detections the loop ends with [valid_detection]
    false, and when the debug information is saved the event is decided
    false_positive and its false-positive call is sent. *)
Theorem threshold_is_strict w ev st response img objects :
  truthy (ev_has_snapshot ev) = true →
  requests_get w (snapshot_url w (ev_id ev)) = Return response →
  raise_for_status (snapshot_url w (ev_id ev)) response = Return tt →
  Image_open w (content response) = Return img →
  yolo_model w img = Return objects →
  Forall (λ obj, box_conf obj = CONFIDENCE_THRESHOLD ∨ box_conf obj = not_a_number)
         objects →
  (∀ st0, ∃ trail, (scan w (ev_id ev) objects [] st0).2 = Return (false, trail)) ∧
  (debug_result w ev (content response) objects = Return tt →
   rendered_decision w (ev_id ev) (process_event w ev st).1 = Some "false_positive" ∧
   false_positive_calls (process_event w ev st).1 =
     false_positive_calls st ++ [HttpPut (false_positive_url w (ev_id ev))]).
Proof.
  intros Hsnap Hget Hstatus Himg Hyolo Hall.
  assert (Hnone : existsb qualifying objects = false).
  { clear -Hall. induction Hall as [|obj rest Hobj _ IH]; [done|]. cbn [existsb].
    by rewrite (at_threshold_does_not_qualify obj Hobj), IH. }
  split.
  - intros st0. destruct (scan_run w (ev_id ev) objects [] st0) as [entries ->].
    rewrite Hnone. eauto.
  - intros Hsaved.
    destruct (process_event_renders w ev st response img objects
                Hsnap Hget Hstatus Himg Hyolo Hsaved) as [-> ->].
    by rewrite Hnone.
Qed.

Lemma threshold_is_strict_witness :
  let objects := [example_box "person" 0.5%float; example_box "car" not_a_number] in
  let w := with_detector world_A (fun _ => Return objects) in
  let ev := example_event "evt-6" true in
  let response := {| status_code := 200; reason := "OK"; content := "JPEG" |} in
  let img := {| size_wh := (640, 480)%Z; pixels := [] |} in
  (truthy (ev_has_snapshot ev) = true ∧
   requests_get w (snapshot_url w (ev_id ev)) = Return response ∧
   raise_for_status (snapshot_url w (ev_id ev)) response = Return tt ∧
   Image_open w (content response) = Return img ∧
   yolo_model w img = Return objects ∧
   Forall (λ obj, box_conf obj = CONFIDENCE_THRESHOLD ∨ box_conf obj = not_a_number)
          objects ∧
   debug_result w ev (content response) objects = Return tt) ∧
  rendered_decision w (ev_id ev) (process_event w ev initial_state).1 =
    Some "false_positive" ∧
  false_positive_calls (process_event w ev initial_state).1 =
    false_positive_calls initial_state ++ [HttpPut (false_positive_url w (ev_id ev))].
Proof.
  split.
  { split_and!; try reflexivity.
    constructor; [left; reflexivity|constructor; [right; reflexivity|constructor]]. }
  assert (Hall : Forall (λ obj, box_conf obj = CONFIDENCE_THRESHOLD ∨
                                box_conf obj = not_a_number)
                   [example_box "person" 0.5%float; example_box "car" not_a_number]).
  { constructor; [left; reflexivity|constructor; [right; reflexivity|constructor]]. }
  destruct (threshold_is_strict
              (with_detector world_A
                 (fun _ => Return [example_box "person" 0.5%float;
                                   example_box "car" not_a_number]))
              (example_event "evt-6" true) initial_state
              {| status_code := 200; reason := "OK"; content := "JPEG" |}
              {| size_wh := (640, 480)%Z; pixels := [] |}
              [example_box "person" 0.5%float; example_box "car" not_a_number]
              eq_refl eq_refl eq_refl eq_refl eq_refl Hall) as [_ Hsaved].
  exact (Hsaved eq_refl).
Defined.

(** ** Polling *)

(** X17. An idle worker leaves no trace: with an empty queue and the stop
    flag down, any number of worker moves only alternates between the loop
    test and a [get] that times out; the state, log included, stays exactly
    as it was. *)
Theorem idle_worker_leaves_no_trace schedule sys :
  forallb is_worker_action schedule = true →
  items (queue_of sys) = [] →
  stop_event (sys_state sys) = false →
  sys_pc sys = AtLoopTest ∨ sys_pc sys = AtGet →
  sys_state (run schedule sys) = sys_state sys ∧
  (sys_pc (run schedule sys) = AtLoopTest ∨ sys_pc (run schedule sys) = AtGet).
Proof.
  revert sys. induction schedule as [|a rest IH]; intros sys Hall Hitems Hstop Hpc; [done|].
  cbn [forallb] in Hall. apply andb_true_iff in Hall as [Ha Hrest].
  destruct a as [w msg| |w]; try done.
  cbn [run fold_left]. change (fold_left _ rest ?s) with (run rest s).
  assert (Hstep : sys_state (step (WorkerMove w) sys) = sys_state sys ∧
                  (sys_pc (step (WorkerMove w) sys) = AtLoopTest ∨
                   sys_pc (step (WorkerMove w) sys) = AtGet)).
  { destruct sys as [st pc]. unfold queue_of in Hitems. cbn [sys_state sys_pc] in *.
    destruct Hpc as [-> | ->]; cbn [step worker sys_state sys_pc].
    - rewrite Hstop. auto.
    - rewrite Hitems. auto. }
  destruct Hstep as [Hst Hpc'].
  destruct (IH (step (WorkerMove w) sys) Hrest) as [Hst' Hpc''].
  - unfold queue_of. by rewrite Hst.
  - by rewrite Hst.
  - done.
  - split; [congruence|done].
Qed.

Lemma idle_worker_leaves_no_trace_witness :
  let schedule := [WorkerMove world_A; WorkerMove world_B; WorkerMove world_D;
                   WorkerMove world_A; WorkerMove world_A] in
  (forallb is_worker_action schedule = true ∧
   items (queue_of initial_system) = [] ∧
   stop_event (sys_state initial_system) = false ∧
   (sys_pc initial_system = AtLoopTest ∨ sys_pc initial_system = AtGet)) ∧
  sys_state (run schedule initial_system) = sys_state initial_system.
Proof.
  split; [split_and!; try reflexivity; by left|].
  apply (idle_worker_leaves_no_trace
           [WorkerMove world_A; WorkerMove world_B; WorkerMove world_D;
            WorkerMove world_A; WorkerMove world_A] initial_system);
    try reflexivity.
  by left.
Defined.

(** ** The call and the copy *)

(** X18. The false-positive call comes before the copy of the snapshot: when
    the debug information is saved, no detection qualifies and the call does
    not let an exception through, a final write that raises ends
    [process_event] with its exception, after the decision false_positive was
    written and the call was sent. *)
Theorem copy_failure_comes_after_the_call w ev st response img objects e :
  truthy (ev_has_snapshot ev) = true →
  requests_get w (snapshot_url w (ev_id ev)) = Return response →
  raise_for_status (snapshot_url w (ev_id ev)) response = Return tt →
  Image_open w (content response) = Return img →
  yolo_model w img = Return objects →
  debug_result w ev (content response) objects = Return tt →
  existsb qualifying objects = false →
  put_escapes w (ev_id ev) = None →
  write_error (open_write w (output_path w (ev_id ev) false)
                 (RawFile (content response))) = Raise e →
  let r := process_event w ev st in
  r.2 = Raise e ∧
  rendered_decision w (ev_id ev) r.1 = Some "false_positive" ∧
  false_positive_calls r.1 =
    false_positive_calls st ++ [HttpPut (false_positive_url w (ev_id ev))].
Proof.
  intros Hsnap Hget Hstatus Himg Hyolo Hsaved Hnone Hput Hcopy r. subst r.
  destruct (process_event_renders w ev st response img objects
              Hsnap Hget Hstatus Himg Hyolo Hsaved) as [Hdec Hcalls].
  rewrite Hnone in Hdec, Hcalls. split; [|by split].
  destruct (process_event_decides w ev st response img objects
              Hsnap Hget Hstatus Himg Hyolo Hsaved) as (entries & ->).
  cbn [snd]. unfold copy_result. rewrite Hnone, Hput.
  by destruct (open_write w (output_path w (ev_id ev) false) (RawFile (content response)));
    cbn [write_error] in Hcopy; [|injection Hcopy as ->..].
Qed.

Lemma copy_failure_comes_after_the_call_witness :
  let w := world_B in
  let ev := example_event "a/b" true in
  let response := {| status_code := 200; reason := "OK"; content := "JPEG" |} in
  let img := {| size_wh := (640, 480)%Z; pixels := [] |} in
  let objects := [example_box "person" 0.3%float] in
  let e := Exn FileNotFoundError
             "[Errno 2] No such file or directory: 'reviewed_images/false/a/b.jpg'" in
  let r := process_event w ev initial_state in
  (truthy (ev_has_snapshot ev) = true ∧
   requests_get w (snapshot_url w (ev_id ev)) = Return response ∧
   raise_for_status (snapshot_url w (ev_id ev)) response = Return tt ∧
   Image_open w (content response) = Return img ∧
   yolo_model w img = Return objects ∧
   debug_result w ev (content response) objects = Return tt ∧
   existsb qualifying objects = false ∧
   put_escapes w (ev_id ev) = None ∧
   write_error (open_write w (output_path w (ev_id ev) false)
                  (RawFile (content response))) = Raise e) ∧
  r.2 = Raise e ∧
  rendered_decision w (ev_id ev) r.1 = Some "false_positive" ∧
  false_positive_calls r.1 =
    false_positive_calls initial_state ++ [HttpPut (false_positive_url w (ev_id ev))].
Proof.
  split; [repeat split; reflexivity|].
  apply (copy_failure_comes_after_the_call world_B (example_event "a/b" true) initial_state
           {| status_code := 200; reason := "OK"; content := "JPEG" |}
           {| size_wh := (640, 480)%Z; pixels := [] |}
           [example_box "person" 0.3%float]); reflexivity.
Defined.
